(** * Key derivation for Stellar accounts (SEP-0005) and the SSE stream client

    A shallow embedding of [stellar_sdk/sep/mnemonic.py] and of the
    streaming part of [stellar_sdk/client/requests_client.py], together with
    the properties the specification states about them.

    Layout:
    - [Hashlib]: the hash primitives of Python's [hashlib] and [hmac]
      modules that the source calls (SHA-512, HMAC, PBKDF2);
    - [Py]: the few Python built-ins used by the source ([%d] formatting,
      [str.split], slicing, [int], [struct.pack], [str.encode]) and the
      monad in which the program runs;
    - [Mnemonic]: the embedding of [sep/mnemonic.py];
    - [RequestsClient]: the embedding of [_SSEClient.__next__] and
      [RequestsClient.stream];
    - [Reference]: the computations the specification describes in words,
      against which the embedding is compared;
    - lemmas and the theorems about the claims. *)

From Stdlib Require Import ZArith NArith Ascii String Bool Lia.
From Stdlib Require Import DecimalString DecimalZ DecimalPos Uint63.
From Stdlib.Strings Require Import Byte.
From Stdlib Require Import List.
From Bignums Require Import BigZ.
From Equations Require Import Equations.
Import ListNotations.
Local Open Scope list_scope.

(** Python [bytes] objects. *)
Definition bytes := list byte.

Definition byte_of_N (n : N) : byte :=
  match Byte.of_N (N.land n 255) with
  | Some b => b
  | None => x00
  end.

Definition bytes_of_string (s : string) : bytes := list_byte_of_string s.

(** Big-endian reading and writing of unsigned integers. *)
Definition be_word (bs : bytes) : N :=
  fold_left (fun acc b => (acc * 256 + Byte.to_N b)%N) bs 0%N.

Definition be_bytes (width : nat) (w : N) : bytes :=
  map (fun i => byte_of_N (N.shiftr w (8 * N.of_nat i))) (rev (seq 0 width)).

(** ** The hash primitives of [hashlib] and [hmac]

    These are not part of the repository: the source calls them through
    [hashlib.sha512], [hmac.new] and [hashlib.pbkdf2_hmac].  They are written
    out after FIPS 180-4, RFC 2104 and RFC 8018 so that the embedding of the
    source can be evaluated on concrete inputs.  For the sake of evaluation
    a 64-bit word is kept as two halves of 32 bits in machine integers, and
    an HMAC object keeps, as [hmac.new] does, the two hash states that have
    absorbed the padded key. *)
Module Hashlib.
Local Open Scope uint63_scope.

(** A 64-bit word: its high and its low 32 bits. *)
Definition word : Type := int * int.

Definition mask32 : int := 0xFFFFFFFF.

Definition zero64 : word := (0, 0).

(** Addition of 64-bit words, wrapping around at [2^64]. *)
Definition add64 (a b : word) : word :=
  let '(ah, al) := a in
  let '(bh, bl) := b in
  let lo := al + bl in
  ((ah + bh + (lo >> 32)) land mask32, lo land mask32).

Definition xor64 (a b : word) : word :=
  let '(ah, al) := a in
  let '(bh, bl) := b in
  (ah lxor bh, al lxor bl).

Definition and64 (a b : word) : word :=
  let '(ah, al) := a in
  let '(bh, bl) := b in
  (ah land bh, al land bl).

Definition not64 (a : word) : word :=
  let '(ah, al) := a in
  (ah lxor mask32, al lxor mask32).

(** Right shift by [0 < n < 32]. *)
Definition shr (n : int) (a : word) : word :=
  let '(ah, al) := a in
  (ah >> n, ((al >> n) lor (ah << (32 - n))) land mask32).

(** Right rotation by [0 < n < 64]. *)
Definition rotr (n : int) (a : word) : word :=
  let '(ah, al) := a in
  if n <? 32 then
    (((ah >> n) lor (al << (32 - n))) land mask32,
     ((al >> n) lor (ah << (32 - n))) land mask32)
  else
    let k := n - 32 in
    (((al >> k) lor (ah << (32 - k))) land mask32,
     ((ah >> k) lor (al << (32 - k))) land mask32).

Definition Ch (x y z : word) : word := xor64 (and64 x y) (and64 (not64 x) z).

Definition Maj (x y z : word) : word :=
  xor64 (xor64 (and64 x y) (and64 x z)) (and64 y z).

Definition Sigma0 (x : word) : word := xor64 (xor64 (rotr 28 x) (rotr 34 x)) (rotr 39 x).
Definition Sigma1 (x : word) : word := xor64 (xor64 (rotr 14 x) (rotr 18 x)) (rotr 41 x).
Definition sigma0 (x : word) : word := xor64 (xor64 (rotr 1 x) (rotr 8 x)) (shr 7 x).
Definition sigma1 (x : word) : word := xor64 (xor64 (rotr 19 x) (rotr 61 x)) (shr 6 x).

Definition K512 : list word :=
 [(0x428a2f98, 0xd728ae22); (0x71374491, 0x23ef65cd); (0xb5c0fbcf, 0xec4d3b2f);
  (0xe9b5dba5, 0x8189dbbc); (0x3956c25b, 0xf348b538); (0x59f111f1, 0xb605d019);
  (0x923f82a4, 0xaf194f9b); (0xab1c5ed5, 0xda6d8118); (0xd807aa98, 0xa3030242);
  (0x12835b01, 0x45706fbe); (0x243185be, 0x4ee4b28c); (0x550c7dc3, 0xd5ffb4e2);
  (0x72be5d74, 0xf27b896f); (0x80deb1fe, 0x3b1696b1); (0x9bdc06a7, 0x25c71235);
  (0xc19bf174, 0xcf692694); (0xe49b69c1, 0x9ef14ad2); (0xefbe4786, 0x384f25e3);
  (0x0fc19dc6, 0x8b8cd5b5); (0x240ca1cc, 0x77ac9c65); (0x2de92c6f, 0x592b0275);
  (0x4a7484aa, 0x6ea6e483); (0x5cb0a9dc, 0xbd41fbd4); (0x76f988da, 0x831153b5);
  (0x983e5152, 0xee66dfab); (0xa831c66d, 0x2db43210); (0xb00327c8, 0x98fb213f);
  (0xbf597fc7, 0xbeef0ee4); (0xc6e00bf3, 0x3da88fc2); (0xd5a79147, 0x930aa725);
  (0x06ca6351, 0xe003826f); (0x14292967, 0x0a0e6e70); (0x27b70a85, 0x46d22ffc);
  (0x2e1b2138, 0x5c26c926); (0x4d2c6dfc, 0x5ac42aed); (0x53380d13, 0x9d95b3df);
  (0x650a7354, 0x8baf63de); (0x766a0abb, 0x3c77b2a8); (0x81c2c92e, 0x47edaee6);
  (0x92722c85, 0x1482353b); (0xa2bfe8a1, 0x4cf10364); (0xa81a664b, 0xbc423001);
  (0xc24b8b70, 0xd0f89791); (0xc76c51a3, 0x0654be30); (0xd192e819, 0xd6ef5218);
  (0xd6990624, 0x5565a910); (0xf40e3585, 0x5771202a); (0x106aa070, 0x32bbd1b8);
  (0x19a4c116, 0xb8d2d0c8); (0x1e376c08, 0x5141ab53); (0x2748774c, 0xdf8eeb99);
  (0x34b0bcb5, 0xe19b48a8); (0x391c0cb3, 0xc5c95a63); (0x4ed8aa4a, 0xe3418acb);
  (0x5b9cca4f, 0x7763e373); (0x682e6ff3, 0xd6b2b8a3); (0x748f82ee, 0x5defb2fc);
  (0x78a5636f, 0x43172f60); (0x84c87814, 0xa1f0ab72); (0x8cc70208, 0x1a6439ec);
  (0x90befffa, 0x23631e28); (0xa4506ceb, 0xde82bde9); (0xbef9a3f7, 0xb2c67915);
  (0xc67178f2, 0xe372532b); (0xca273ece, 0xea26619c); (0xd186b8c7, 0x21c0c207);
  (0xeada7dd6, 0xcde0eb1e); (0xf57d4f7f, 0xee6ed178); (0x06f067aa, 0x72176fba);
  (0x0a637dc5, 0xa2c898a6); (0x113f9804, 0xbef90dae); (0x1b710b35, 0x131c471b);
  (0x28db77f5, 0x23047d84); (0x32caab7b, 0x40c72493); (0x3c9ebe0a, 0x15c9bebc);
  (0x431d67c4, 0x9c100d4c); (0x4cc5d4be, 0xcb3e42b6); (0x597f299c, 0xfc657e2a);
  (0x5fcb6fab, 0x3ad6faec); (0x6c44198c, 0x4a475817)].

Definition H512 : list word :=
 [(0x6a09e667, 0xf3bcc908); (0xbb67ae85, 0x84caa73b); (0x3c6ef372, 0xfe94f82b);
  (0xa54ff53a, 0x5f1d36f1); (0x510e527f, 0xade682d1); (0x9b05688c, 0x2b3e6c1f);
  (0x1f83d9ab, 0xfb41bd6b); (0x5be0cd19, 0x137e2179)].

Definition int_of_byte (b : byte) : int := of_Z (Z.of_N (Byte.to_N b)).

Definition byte_of_int (x : int) : byte :=
  let bit k := (x >> k) land 1 =? 1 in
  Byte.of_bits (bit 0, (bit 1, (bit 2, (bit 3, (bit 4, (bit 5, (bit 6, bit 7))))))).

(** Big-endian reading and writing of 32-bit halves and of words. *)
Definition be_int (bs : bytes) : int :=
  fold_left (fun acc b => (acc << 8) lor int_of_byte b) bs 0.

Definition be_word64 (bs : bytes) : word :=
  (be_int (firstn 4 bs), be_int (skipn 4 bs)).

Definition be_bytes32 (x : int) : bytes :=
  [byte_of_int (x >> 24); byte_of_int (x >> 16); byte_of_int (x >> 8); byte_of_int x].

Definition be_bytes64 (w : word) : bytes :=
  let '(h, l) := w in be_bytes32 h ++ be_bytes32 l.

Fixpoint words (n : nat) (bs : bytes) : list word :=
  match n with
  | O => []
  | S n' => be_word64 (firstn 8 bs) :: words n' (skipn 8 bs)
  end.

(** The message schedule is kept as a window of the last sixteen words:
    the head is [W t], and [next_word] is [W (t+16)]. *)
Definition next_word (w : list word) : word :=
  add64 (add64 (sigma1 (nth 14 w zero64)) (nth 9 w zero64))
        (add64 (sigma0 (nth 1 w zero64)) (nth 0 w zero64)).

Fixpoint rounds (ks w st : list word) : list word :=
  match ks, st with
  | k :: ks', [a; b; c; d; e; f; g; h] =>
      let t1 :=
        add64 (add64 (add64 h (Sigma1 e)) (add64 (Ch e f g) k)) (nth 0 w zero64) in
      let t2 := add64 (Sigma0 a) (Maj a b c) in
      rounds ks' (tl w ++ [next_word w])
             [add64 t1 t2; a; b; c; add64 d t1; e; f; g]
  | _, _ => st
  end.

Fixpoint add_words (xs ys : list word) : list word :=
  match xs, ys with
  | x :: xs', y :: ys' => add64 x y :: add_words xs' ys'
  | _, _ => []
  end.

(** The compression of one block of 128 bytes into the hash state. *)
Definition compress (h : list word) (block : bytes) : list word :=
  add_words h (rounds K512 (words 16 block) h).

Fixpoint blocks (n : nat) (bs : bytes) (h : list word) : list word :=
  match n with
  | O => h
  | S n' => blocks n' (skipn 128 bs) (compress h (firstn 128 bs))
  end.

(** The end of a message of which [absorbed] bytes (whole blocks) have
    gone into the state already: the rest of the message, the bit [1],
    zeros, and the length of the whole message in bits on 16 bytes. *)
Definition pad (absorbed : nat) (msg : bytes) : bytes :=
  let zeros := ((128 - (length msg + 17) mod 128) mod 128)%nat in
  let bits := of_Z (Z.of_nat (8 * (absorbed + length msg))) in
  msg ++ [x80] ++ repeat x00 zeros ++ repeat x00 8
      ++ be_bytes32 (bits >> 32) ++ be_bytes32 (bits land mask32).

(** [digest()] of a hash object in state [h] after [update(msg)]. *)
Definition finish (h : list word) (absorbed : nat) (msg : bytes) : bytes :=
  let p := pad absorbed msg in
  flat_map be_bytes64 (blocks (Nat.div (length p) 128) p h).

(** [hashlib.sha512(msg).digest()] *)
Definition sha512 (msg : bytes) : bytes := finish H512 0 msg.

Definition xor_byte (a b : byte) : byte :=
  byte_of_N (N.lxor (Byte.to_N a) (Byte.to_N b)).

Fixpoint xor_bytes (xs ys : bytes) : bytes :=
  match xs, ys with
  | x :: xs', y :: ys' => xor_byte x y :: xor_bytes xs' ys'
  | _, _ => []
  end.

(** The key of an HMAC, padded to one block. *)
Definition block_key (key : bytes) : bytes :=
  let k := if Nat.ltb 128 (length key) then sha512 key else key in
  k ++ repeat x00 (128 - length k).

(** [hmac.new(key, digestmod=hashlib.sha512)]: the inner and the outer hash
    state, each having absorbed the key block. *)
Definition hmac_new (key : bytes) : list word * list word :=
  let k := block_key key in
  (compress H512 (map (xor_byte x36) k), compress H512 (map (xor_byte x5c) k)).

(** [update(msg)] followed by [digest()] on a copy of the object. *)
Definition hmac_digest (h : list word * list word) (msg : bytes) : bytes :=
  let '(inner, outer) := h in
  finish outer 128 (finish inner 128 msg).

(** [hmac.new(key, msg, hashlib.sha512).digest()] *)
Definition hmac_sha512 (key msg : bytes) : bytes := hmac_digest (hmac_new key) msg.

Fixpoint pbkdf2_iter (h : list word * list word) (c : nat) (u t : bytes) : bytes :=
  match c with
  | O => t
  | S c' =>
      let u' := hmac_digest h u in
      pbkdf2_iter h c' u' (xor_bytes t u')
  end.

Definition pbkdf2_block (password salt : bytes) (c : nat) (i : nat) : bytes :=
  let h := hmac_new password in
  let u1 := hmac_digest h (salt ++ be_bytes32 (of_Z (Z.of_nat i))) in
  pbkdf2_iter h (c - 1) u1 u1.

(** [hashlib.pbkdf2_hmac("sha512", password, salt, c, dklen)] *)
Definition pbkdf2_hmac_sha512 (password salt : bytes) (c dklen : nat) : bytes :=
  let nblocks := Nat.div (dklen + 63) 64 in
  firstn dklen
    (flat_map (pbkdf2_block password salt c) (seq 1 nblocks)).

(** *** Evaluation in order

    The same iteration, with every intermediate digest evaluated before the
    next round starts, so that a long chain of rounds is computed in bounded
    space; [strictly bs k] is [k bs]. *)
Fixpoint bytes_eqb (xs ys : bytes) : bool :=
  match xs, ys with
  | [], [] => true
  | x :: xs', y :: ys' => Byte.eqb x y && bytes_eqb xs' ys'
  | _, _ => false
  end.

Definition strictly {A : Type} (bs : bytes) (k : bytes -> A) : A :=
  if bytes_eqb bs bs then k bs else k bs.

Fixpoint pbkdf2_iter_strict (h : list word * list word) (c : nat) (u t : bytes)
  : bytes :=
  match c with
  | O => t
  | S c' =>
      strictly (hmac_digest h u) (fun u' =>
      strictly (xor_bytes t u') (fun t' => pbkdf2_iter_strict h c' u' t'))
  end.

Definition pbkdf2_block_strict (password salt : bytes) (c : nat) (i : nat) : bytes :=
  let h := hmac_new password in
  let u1 := hmac_digest h (salt ++ be_bytes32 (of_Z (Z.of_nat i))) in
  pbkdf2_iter_strict h (c - 1) u1 u1.

(** The size of a SHA-512 digest, the default [dklen] of [pbkdf2_hmac]. *)
Definition digest_size : nat := 64.

End Hashlib.

(** ** Python built-ins used by the source, and the monad of the program *)
Module Py.
Local Open Scope Z_scope.

(** A Python [str] is a sequence of Unicode code points.  String literals of
    the source are ASCII and are written as Rocq strings. *)
Definition ustr := list N.

Definition ustr_of_string (s : string) : ustr :=
  map N_of_ascii (list_ascii_of_string s).

(** The exceptions the modelled code can raise.  [ValueError] is the class
    of [stellar_sdk.exceptions]; the errors of built-ins and of the packages
    the source imports are kept apart from it, as they are in Python.
    [IntLiteralError] and [IntStrLimitError] are both the built-in
    [ValueError]: the first of [int] on a string that is no literal, the
    second of a conversion between [int] and [str] beyond the digit limit. *)
Inductive exn : Type :=
| ValueError (msg : string)
| StructError
| UnicodeEncodeError
| IntLiteralError
| IntStrLimitError
| StopIteration
| JSONDecodeError
| LibraryError (name : string).

Inductive result (A : Type) : Type :=
| Ok (a : A)
| Raise (e : exn).
Arguments Ok {A} a.
Arguments Raise {A} e.


(** The decimal numeral of [n]: what [str(n)] and the [%d] conversion print
    for an [int] that the interpreter agrees to print (see
    [checked_percent_d]). *)
Definition format_d (n : Z) : string := NilZero.string_of_int (Z.to_int n).

(** The text of [fmt % n] for a format with one [%d] conversion. *)
Fixpoint percent_d (fmt : string) (n : Z) : string :=
  match fmt with
  | EmptyString => EmptyString
  | String "%"%char (String "d"%char rest) => (format_d n ++ rest)%string
  | String c rest => String c (percent_d rest n)
  end.

(** CPython bounds the conversions between [int] and [str]: from 3.11 on
    (and in the security releases of 3.7 to 3.10) printing an [int] of more
    than [sys.get_int_max_str_digits()] decimal digits raises the built-in
    [ValueError].  The limit is 4300 digits unless the interpreter has been
    configured otherwise, and the sign does not count. *)
Definition int_max_str_digits : Z := 4300.

(** The least absolute value that has too many digits. *)
Definition str_digits_bound : Z := 10 ^ int_max_str_digits.

Definition exceeds_str_digits (n : Z) : bool := str_digits_bound <=? Z.abs n.

(** [fmt % n] as the interpreter evaluates it.  [int(s)] has the same limit
    on the digits of [s]; the source applies [int] to parts of a string that
    [%] has printed, which are within the limit. *)
Definition checked_percent_d (fmt : string) (n : Z) : result string :=
  if exceeds_str_digits n then Raise IntStrLimitError
  else Ok (percent_d fmt n).

(** [s.split(sep)] for a separator of one character. *)
Fixpoint split (sep : ascii) (s : string) : list string :=
  match s with
  | EmptyString => [EmptyString]
  | String c r =>
      if Ascii.eqb c sep then EmptyString :: split sep r
      else match split sep r with
           | h :: t => String c h :: t
           | [] => [String c EmptyString]
           end
  end.

(** The strings in which [sep] does not occur. *)
Fixpoint free_of (sep : ascii) (s : string) : bool :=
  match s with
  | EmptyString => true
  | String c r => negb (Ascii.eqb c sep) && free_of sep r
  end.

(** The slice [s[:-1]]. *)
Fixpoint drop_last (s : string) : string :=
  match s with
  | EmptyString => EmptyString
  | String c r =>
      match r with
      | EmptyString => EmptyString
      | String _ _ => String c (drop_last r)
      end
  end.

(** [int(s)] on an optional minus sign followed by decimal digits.  Python
    also accepts surrounding white space, a plus sign and underscores; the
    strings the source passes to [int] contain none of them. *)
Definition py_int (s : string) : result Z :=
  match NilZero.int_of_string s with
  | Some d => Ok (Z.of_int d)
  | None => Raise IntLiteralError
  end.

(** [struct.pack(">I", v)]: four bytes, big-endian, for [0 <= v < 2^32];
    [struct.error] outside this range. *)
Definition struct_pack_I (v : Z) : result bytes :=
  if (0 <=? v) && (v <=? 0xFFFFFFFF)
  then Ok (be_bytes 4 (Z.to_N v))
  else Raise StructError.

(** [struct.pack("x")]: one pad byte. *)
Definition struct_pack_x : bytes := [x00].

(** [s.encode("utf-8")]: surrogate code points cannot be encoded. *)
Definition utf8_char (c : N) : option bytes :=
  (if c <? 0x80 then Some [byte_of_N c]
   else if c <? 0x800 then
     Some [byte_of_N (0xC0 + c / 64); byte_of_N (0x80 + c mod 64)]
   else if (0xD800 <=? c) && (c <=? 0xDFFF) then None
   else if c <? 0x10000 then
     Some [byte_of_N (0xE0 + c / 4096); byte_of_N (0x80 + (c / 64) mod 64);
           byte_of_N (0x80 + c mod 64)]
   else if c <? 0x110000 then
     Some [byte_of_N (0xF0 + c / 262144); byte_of_N (0x80 + (c / 4096) mod 64);
           byte_of_N (0x80 + (c / 64) mod 64); byte_of_N (0x80 + c mod 64)]
   else None)%N.

Fixpoint utf8 (s : ustr) : option bytes :=
  match s with
  | [] => Some []
  | c :: r =>
      match utf8_char c, utf8 r with
      | Some b, Some bs => Some (b ++ bs)
      | _, _ => None
      end
  end.

Definition encode_utf8 (s : ustr) : result bytes :=
  match utf8 s with
  | Some bs => Ok bs
  | None => Raise UnicodeEncodeError
  end.

(** *** The world the program runs in

    The calls to collaborators outside the repository are recorded in the
    order in which they are made, so that a statement can say what had been
    computed when an exception was raised.  The source of randomness is a
    tape of bytes with a read position. *)
Inductive call : Type :=
| HmacSha512
| Pbkdf2HmacSha512 (iterations : nat)
| Urandom (n : Z)
| ToMnemonic (data : bytes)
| MnemonicInit (language : string).

Record world : Type := {
  entropy : nat -> byte;
  cursor : nat;
  calls : list call
}.

Definition record (c : call) (w : world) : world :=
  {| entropy := entropy w; cursor := cursor w; calls := calls w ++ [c] |}.

(** The world after [n] further HMAC computations. *)
Definition hmacs (n : nat) (w : world) : world := Nat.iter n (record HmacSha512) w.

(** The calls that compute a hash, as opposed to those that draw
    randomness or go into the [mnemonic] package. *)
Definition is_hash_call (c : call) : Prop :=
  match c with
  | HmacSha512 | Pbkdf2HmacSha512 _ => True
  | _ => False
  end.

(** Computations that read and update the world and may raise. *)
Definition M (A : Type) : Type := world -> result A * world.

Definition ret {A} (a : A) : M A := fun w => (Ok a, w).

Definition raise {A} (e : exn) : M A := fun w => (Raise e, w).

Definition bind {A B} (m : M A) (k : A -> M B) : M B :=
  fun w =>
    match m w with
    | (Ok a, w') => k a w'
    | (Raise e, w') => (Raise e, w')
    end.

Definition lift {A} (r : result A) : M A := fun w => (r, w).

Definition value {A} (x : result A * world) : result A := fst x.
Definition after {A} (x : result A * world) : world := snd x.

(** One HMAC-SHA512 object created with [hmac.new], fed with [update] and
    read with [digest]. *)
Definition hmac_digest (key msg : bytes) : M bytes :=
  fun w => (Ok (Hashlib.hmac_sha512 key msg), record HmacSha512 w).

(** [hashlib.pbkdf2_hmac("sha512", password, salt, iterations)], whose
    output length defaults to the digest size. *)
Definition pbkdf2_hmac (password salt : bytes) (iterations : nat) : M bytes :=
  fun w =>
    (Ok (Hashlib.pbkdf2_hmac_sha512 password salt iterations Hashlib.digest_size),
     record (Pbkdf2HmacSha512 iterations) w).


End Py.

Notation "x <- c1 ;; c2" := (Py.bind c1 (fun x => c2))
  (at level 61, c1 at next level, right associativity).

(** ** [stellar_sdk/sep/mnemonic.py] *)
Module Mnemonic.
Import Py.
Local Open Scope Z_scope.

(** What a call into the [mnemonic] package gives back: a value, or one of
    the package's own exceptions. *)
Inductive library_result (A : Type) : Type :=
| Returns (a : A)
| Fails (error : string).
Arguments Returns {A} a.
Arguments Fails {A} error.


(** The part of the [mnemonic] package (class [Mnemonic]) that the source
    inherits and calls: [normalize_string] is Unicode NFKD normalisation,
    [to_mnemonic] encodes entropy as a phrase of the instance's word list,
    [Mnemonic_init] is the constructor of the base class. *)
Class MnemonicPackage : Type := {
  normalize_string : ustr -> ustr;
  to_mnemonic : string -> bytes -> library_result string;
  Mnemonic_init : string -> library_result unit
}.

(** Modelled from the spec: [PBKDF2_ROUNDS] is imported from
    [mnemonic.mnemonic], which is not part of the repository; the
    specification gives the iteration count of the BIP39 reference, 2048. *)
Definition PBKDF2_ROUNDS : nat := 2048.

Inductive Language : Type :=
| JAPANESE
| FRENCH
| ENGLISH
| SPANISH
| ITALIAN
| KOREAN
| CHINESE_SIMPLIFIED
| CHINESE_TRADITIONAL.

Definition Language_value (l : Language) : string :=
  match l with
  | JAPANESE => "japanese"
  | FRENCH => "french"
  | ENGLISH => "english"
  | SPANISH => "spanish"
  | ITALIAN => "italian"
  | KOREAN => "korean"
  | CHINESE_SIMPLIFIED => "chinese_simplified"
  | CHINESE_TRADITIONAL => "chinese_traditional"
  end.

(** Iterating over the enumeration, in the order of definition. *)
Definition Language_members : list Language :=
  [JAPANESE; FRENCH; ENGLISH; SPANISH; ITALIAN; KOREAN;
   CHINESE_SIMPLIFIED; CHINESE_TRADITIONAL].

Definition STELLAR_ACCOUNT_PATH_FORMAT : string := "m/44'/148'/%d'".
Definition FIRST_HARDENED_INDEX : Z := 0x80000000.
Definition SEED_MODIFIER : bytes := bytes_of_string "ed25519 seed".

(** An instance of [StellarMnemonic]; the word list that the base class
    loads is determined by the language. *)
Record StellarMnemonic : Type := { language : string }.

(** The constructor's argument, of type [Union[str, Language]]. *)
Inductive language_arg : Type :=
| ArgLanguage (l : Language)
| ArgStr (s : string).

Section WithPackage.
Context {pkg : MnemonicPackage}.

(** [super().__init__(language)] *)
Definition super_init (language : string) : M StellarMnemonic :=
  fun w =>
    (match Mnemonic_init language with
     | Returns _ => Ok {| language := language |}
     | Fails name => Raise (LibraryError name)
     end,
     record (MnemonicInit language) w).

(** [StellarMnemonic.__init__] *)
Definition init (language : language_arg) : M StellarMnemonic :=
  language <-
    match language with
    | ArgLanguage l => ret (Language_value l)
    | ArgStr s =>
        if negb (existsb (String.eqb s) (map Language_value Language_members))
        then raise (ValueError "This language is not supported.")
        else ret s
    end ;;
  super_init language.

(** The loop of [derive] over the segments of the path. *)
Fixpoint derive_loop (segments : list string) (il ir : bytes) : M bytes :=
  match segments with
  | [] => ret il
  | x :: segments' =>
      n <- lift (py_int (drop_last x)) ;;
      packed <- lift (struct_pack_I (FIRST_HARDENED_INDEX + n)) ;;
      let data := struct_pack_x ++ il ++ packed in
      digest <- hmac_digest ir data ;;
      derive_loop segments' (firstn 32 digest) (skipn 32 digest)
  end.

(** [StellarMnemonic.derive] *)
Definition derive (seed : bytes) (index : Z) : M bytes :=
  digest <- hmac_digest SEED_MODIFIER seed ;;
  let il := firstn 32 digest in
  let ir := skipn 32 digest in
  path <- lift (checked_percent_d STELLAR_ACCOUNT_PATH_FORMAT index) ;;
  derive_loop (tl (split "/" path)) il ir.

(** [StellarMnemonic.to_seed] *)
Definition to_seed (mnemonic passphrase : ustr) (index : Z) : M bytes :=
  let mnemonic := normalize_string mnemonic in
  let passphrase := normalize_string passphrase in
  let passphrase := ustr_of_string "mnemonic" ++ passphrase in
  mnemonic <- lift (encode_utf8 mnemonic) ;;
  passphrase <- lift (encode_utf8 passphrase) ;;
  stretched <- pbkdf2_hmac mnemonic passphrase PBKDF2_ROUNDS ;;
  derive (firstn 64 stretched) index.



(** What a method is looked up on: the class itself, or an instance. *)
Inductive receiver : Type :=
| OnClass
| OnInstance (self : StellarMnemonic).

(** [to_seed] is a [classmethod] and [derive] a [staticmethod]: looked up on
    an instance or on the class, neither is passed the instance. *)
Definition bound_to_seed (r : receiver) : ustr -> ustr -> Z -> M bytes :=
  match r with
  | OnClass => to_seed
  | OnInstance _ => to_seed
  end.

Definition bound_derive (r : receiver) : bytes -> Z -> M bytes :=
  match r with
  | OnClass => derive
  | OnInstance _ => derive
  end.

End WithPackage.

End Mnemonic.

(** ** The event stream of [stellar_sdk/client/requests_client.py] *)
Module RequestsClient.
Import Py.

(** The double quote character, and a string between double quotes. *)
Definition dquote : ascii := "034"%char.
Definition quoted (s : string) : string :=
  String dquote (s ++ String dquote EmptyString)%string.

(** The two keep-alive messages of the server, as the source spells them:
    the five (six) letters between double quotes. *)
Definition HELLO : string := quoted "hello".
Definition BYEBYE : string := quoted "byebye".

(** A message delivered by [sseclient.SSEClient]. *)
Record message : Type := {
  data : string;
  event : string
}.

Section Stream.
(** Decoded JSON documents and [json.loads], which raises on malformed
    input. *)
Variable json : Type.
Variable json_loads : string -> option json.

Definition loads (s : string) : result json :=
  match json_loads s with
  | Some v => Ok v
  | None => Raise JSONDecodeError
  end.

(** [_SSEClient.__next__]: the state is the sequence of messages that the
    wrapped client has yet to deliver; [next(self.client)] on an exhausted
    client raises [StopIteration]. *)
Fixpoint SSEClient_next (pending : list message) : result json * list message :=
  match pending with
  | [] => (Raise StopIteration, [])
  | msg :: rest =>
      let data := data msg in
      if negb (String.eqb data HELLO) && negb (String.eqb data BYEBYE)
      then (loads data, rest)
      else SSEClient_next rest
  end.

Definition inspect {A} (a : A) : {b : A | a = b} := exist _ a eq_refl.

(** [RequestsClient.stream]: the generator yields what [__next__] returns
    until [__next__] raises; the values yielded and the exception that ends
    the iteration are returned. *)
Equations stream (pending : list message) : list json * exn
  by wf (length pending) lt :=
stream pending with inspect (SSEClient_next pending) := {
  | exist _ (Ok v, rest) H =>
      let '(vs, e) := stream rest in (v :: vs, e)
  | exist _ (Raise e, _) _ => ([], e)
}.
Next Obligation.
  clear stream. symmetry in H. revert v rest H.
  induction pending as [|msg pending IH]; simpl; intros v rest H.
  - discriminate.
  - destruct (negb (String.eqb (data msg) HELLO) && negb (String.eqb (data msg) BYEBYE)).
    + injection H as _ <-. lia.
    + apply IH in H. lia.
Qed.

(** What the specification says of the stream: the keep-alive messages are
    left out, and the data of the others are decoded one after the other,
    up to the first that does not decode. *)
Definition is_keepalive (msg : message) : bool :=
  String.eqb (data msg) HELLO || String.eqb (data msg) BYEBYE.

Fixpoint decoded (msgs : list message) : list json * exn :=
  match msgs with
  | [] => ([], StopIteration)
  | msg :: rest =>
      match json_loads (data msg) with
      | Some v => let '(vs, e) := decoded rest in (v :: vs, e)
      | None => ([], JSONDecodeError)
      end
  end.

End Stream.

(** *** Dictionaries

    A Python [dict] with string keys and values: the pairs in the order of
    insertion, each key once. *)
Definition dict : Type := list (string * string).

Definition keys (d : dict) : list string := map fst d.

(** [d.get(k)] *)
Fixpoint dict_get (k : string) (d : dict) : option string :=
  match d with
  | [] => None
  | (k', v) :: r => if String.eqb k' k then Some v else dict_get k r
  end.

(** [d[k] = v]: a key that is present keeps its place. *)
Fixpoint dict_set (k v : string) (d : dict) : dict :=
  match d with
  | [] => [(k, v)]
  | (k', v') :: r =>
      if String.eqb k' k then (k', v) :: r else (k', v') :: dict_set k v r
  end.

(** [{**a, **b}] *)
Definition dict_unpack (a b : dict) : dict :=
  fold_left (fun acc kv => dict_set (fst kv) (snd kv) acc) b a.

(** *** The query of the event stream *)
Section Http.
(** [__version__], from a module of the package that is not modelled. *)
Variable version : string.

Definition IDENTIFICATION_HEADERS : dict :=
  [("X-Client-Name", "py-stellar-sdk"); ("X-Client-Version", version)]%string.

(** The query of [RequestsClient.stream]: [if params:] is false for [None]
    and for the empty dictionary. *)
Definition stream_query_params (params : option dict) : dict :=
  let query_params := dict_unpack [] IDENTIFICATION_HEADERS in
  match params with
  | Some ((_ :: _) as p) => dict_unpack p query_params
  | _ => query_params
  end.

End Http.

End RequestsClient.

(** ** The computations the specification describes

    Written after the words of the specification, independently of the
    source, to be compared with the embedding above. *)
Module Reference.
Local Open Scope Z_scope.

(** The split of a 64-byte HMAC output into key material and chain code. *)
Definition halves (d : bytes) : bytes * bytes := (firstn 32 d, skipn 32 d).

(** Big-endian, unsigned, four bytes. *)
Definition be32 (v : Z) : bytes := be_bytes 4 (Z.to_N v).

(** Step 0: the master key. *)
Definition master (seed : bytes) : bytes * bytes :=
  halves (Hashlib.hmac_sha512 (bytes_of_string "ed25519 seed") seed).

(** Step i: a hardened child. *)
Definition hardened_child (chain : bytes * bytes) (segment : Z) : bytes * bytes :=
  let '(il, ir) := chain in
  halves (Hashlib.hmac_sha512 ir (x00 :: il ++ be32 (2 ^ 31 + segment))).

(** The walk along purpose 44, coin type 148 and the account index. *)
Definition slip10 (seed : bytes) (index : Z) : bytes :=
  fst (fold_left hardened_child [44; 148; index] (master seed)).

(** The seed stretcher: PBKDF2-HMAC-SHA512 of the normalised mnemonic with
    the salt ["mnemonic"] followed by the normalised passphrase, 2048
    iterations, 64 bytes. *)
Definition stretch (nfkd : Py.ustr -> Py.ustr) (mnemonic passphrase : Py.ustr)
  : option bytes :=
  match Py.utf8 (nfkd mnemonic), Py.utf8 (nfkd passphrase) with
  | Some password, Some pass =>
      Some (Hashlib.pbkdf2_hmac_sha512 password
              (bytes_of_string "mnemonic" ++ pass) 2048 64)
  | _, _ => None
  end.

(** Lower-case hexadecimal print of a byte string. *)
Definition hexdigit (n : N) : ascii :=
  nth (N.to_nat n) (list_ascii_of_string "0123456789abcdef") "?"%char.

Fixpoint hex (bs : bytes) : string :=
  match bs with
  | [] => EmptyString
  | b :: r =>
      String (hexdigit (Byte.to_N b / 16))
             (String (hexdigit (Byte.to_N b mod 16)) (hex r))
  end.

(** Reading of a hexadecimal print. *)
Definition hexval (c : ascii) : N :=
  let n := N_of_ascii c in
  (if (48 <=? n) && (n <=? 57) then n - 48
   else if (97 <=? n) && (n <=? 102) then n - 87
   else 0)%N.

Fixpoint unhex (s : string) : bytes :=
  match s with
  | String a (String b r) => byte_of_N (16 * hexval a + hexval b) :: unhex r
  | _ => []
  end.

(** The strings made of ASCII characters, which NFKD leaves as they are. *)
Definition is_ascii (s : Py.ustr) : bool := forallb (fun c => (c <? 128)%N) s.

End Reference.

(** ** The expansion of a signing seed into a Stellar account

    The published test vector names an account, that is the strkey encoding
    of the ed25519 public key of the derived seed.  Both are outside the
    repository; they are written out after RFC 8032 and the strkey format
    (version byte, payload, CRC16-XModem, base32). *)
Module Ed25519.
Local Open Scope bigZ_scope.

(** The field has [2^255 - 19] elements; they are computed with on big
    integers made of machine words. *)
Definition p : bigZ := 2 ^ 255 - 19.

Fixpoint pow_mod (b : bigZ) (e : positive) : bigZ :=
  match e with
  | xH => b mod p
  | xO e' => let r := pow_mod b e' in (r * r) mod p
  | xI e' => let r := pow_mod b e' in ((r * r) mod p * b) mod p
  end.

(** The inverse, as the power [p - 2]. *)
Definition inv (x : bigZ) : bigZ := pow_mod x (Z.to_pos (2 ^ 255 - 21)).

Definition d : bigZ := (- 121665 * inv 121666) mod p.

(** Points in extended homogeneous coordinates [(X, Y, Z, T)]. *)
Definition point : Type := bigZ * bigZ * bigZ * bigZ.

Definition point_add (P Q : point) : point :=
  let '(X1, Y1, Z1, T1) := P in
  let '(X2, Y2, Z2, T2) := Q in
  let A := ((Y1 - X1) * (Y2 - X2)) mod p in
  let B := ((Y1 + X1) * (Y2 + X2)) mod p in
  let C := (((T1 * 2) mod p * d) mod p * T2) mod p in
  let D := ((Z1 * 2) mod p * Z2) mod p in
  let E := B - A in
  let F := D - C in
  let G := D + C in
  let H := B + A in
  ((E * F) mod p, (G * H) mod p, (F * G) mod p, (E * H) mod p).

Fixpoint point_mul (k : positive) (P : point) : point :=
  match k with
  | xH => P
  | xO k' => let Q := point_mul k' P in point_add Q Q
  | xI k' => let Q := point_mul k' P in point_add (point_add Q Q) P
  end.

Definition base_x : bigZ :=
  15112221349535400772501151409588531511454012693041857206046113283949847762202.
Definition base_y : bigZ := (4 * inv 5) mod p.
Definition base : point := (base_x, base_y, 1, (base_x * base_y) mod p).

Definition le_int (bs : bytes) : Z :=
  fold_right (fun b acc => (Z.of_N (Byte.to_N b) + 256 * acc)%Z) 0%Z bs.

Definition le_bytes (width : nat) (z : Z) : bytes :=
  map (fun i => byte_of_N (Z.to_N (Z.shiftr z (8 * Z.of_nat i)))) (seq 0 width).

(** The secret scalar: the first half of the hash of the seed, clamped. *)
Definition secret_scalar (seed : bytes) : Z :=
  let a := le_int (firstn 32 (Hashlib.sha512 seed)) in
  Z.lor (Z.land a (2 ^ 254 - 8)) (2 ^ 254).

Definition point_compress (P : point) : bytes :=
  let '(X, Y, Z1, _) := P in
  let zinv := inv Z1 in
  let x := BigZ.to_Z ((X * zinv) mod p) in
  let y := BigZ.to_Z ((Y * zinv) mod p) in
  le_bytes 32 (Z.lor y (Z.shiftl (Z.land x 1) 255)).

Definition public_key (seed : bytes) : bytes :=
  point_compress (point_mul (Z.to_pos (secret_scalar seed)) base).

End Ed25519.

Module StrKey.
Local Open Scope N_scope.

Definition crc_shift (crc : N) : N :=
  if N.testbit crc 15
  then N.land (N.lxor (N.shiftl crc 1) 0x1021) 0xFFFF
  else N.land (N.shiftl crc 1) 0xFFFF.

Definition crc_step (crc : N) (b : byte) : N :=
  Nat.iter 8 crc_shift (N.lxor crc (N.shiftl (Byte.to_N b) 8)).

Definition crc16 (bs : bytes) : N := fold_left crc_step bs 0.

Definition base32_char (n : N) : ascii :=
  nth (N.to_nat n) (list_ascii_of_string "ABCDEFGHIJKLMNOPQRSTUVWXYZ234567") "="%char.

(** Base32 without padding characters. *)
Definition base32 (bs : bytes) : string :=
  let nbits := (8 * length bs)%nat in
  let nchars := Nat.div (nbits + 4) 5 in
  let v := N.shiftl (be_word bs) (N.of_nat (5 * nchars - nbits)) in
  string_of_list_ascii
    (map (fun i => base32_char (N.land (N.shiftr v (5 * N.of_nat i)) 31))
         (rev (seq 0 nchars))).

Definition encode (version : byte) (payload : bytes) : string :=
  let body := version :: payload in
  let crc := crc16 body in
  base32 (body ++ [byte_of_N crc; byte_of_N (N.shiftr crc 8)]).

(** Version bytes [6 << 3] for an account and [18 << 3] for a secret seed. *)
Definition account_id (public_key : bytes) : string := encode x30 public_key.
Definition secret_seed (seed : bytes) : string := encode x90 seed.

End StrKey.

(** ** Sample data on which the statements below are instantiated *)
Module Samples.
Import Py Mnemonic.

(** A world with a tape of zero bytes in which nothing has been called. *)
Definition blank_world : world :=
  {| entropy := fun _ => x00; cursor := 0; calls := [] |}.

Definition zero_seed : bytes := repeat x00 64.

(** A stand-in for the [mnemonic] package that leaves strings as they are
    (as NFKD does on ASCII) and encodes every entropy as the same phrase. *)
Definition plain_package : MnemonicPackage :=
  {| normalize_string := fun s => s;
     to_mnemonic := fun _ _ => Returns "abandon"%string;
     Mnemonic_init := fun _ => Returns tt |}.


(** A stand-in whose normalisation takes the angstrom sign (U+212B) apart
    into the letter A and the combining ring above, as NFKD does. *)
Definition angstrom_package : MnemonicPackage :=
  {| normalize_string :=
       flat_map (fun c => if (c =? 0x212B)%N then [0x41; 0x30A]%N else [c]);
     to_mnemonic := fun _ _ => Returns "abandon"%string;
     Mnemonic_init := fun _ => Returns tt |}.

End Samples.

(** ** The first test vector of SEP-0005

    The mnemonic, the BIP39 seed and the keys that SEP-0005 publishes for
    the account path [m/44'/148'/0'], and the account string that the
    specification's example names. *)
Module Sep5.

Definition mnemonic : string :=
  "illness spike retreat truth genius clock brain pass fit cave bargain toe".

Definition bip39_seed : bytes :=
  Reference.unhex
    "e4a5a632e70943ae7f07659df1332160937fad82587216a4c64315a0fb39497ee4a01f76ddab4cba68147977f3a147b6ad584c41808e8238a07f6cc4b582f186".

Definition key : bytes :=
  Reference.unhex "4d691bc19b44a1383b1a0a130aaca3e05c3c1a371dbe45930ef9b761f7a74691".

Definition public_key : bytes :=
  Reference.unhex "e3726830a0b60cb5f52c844cffcd4eed65eba5c155e89b26411562724e71e544".

Definition secret : string :=
  "SBGWSG6BTNCKCOB3DIFBGCVMUPQFYPA2G4O34RMTB343OYPXU5DJDVMN".

Definition account : string :=
  "GDRXE2BQUC3AZNPVFSCEZ76NJ3WWL25FYFK6RGZGIEKWE4SOOHSUJUJ6".

(** The account string as the example of the specification gives it. *)
Definition claimed_account : string :=
  "GDRXE2BQUC3AZNPVFSCEZ76NJ3WWL25FYFK6RGZGIEKWE4SOOHSUEUVX".

End Sep5.

(** ** Sample messages of an event stream, and a stand-in for [json.loads]
    that decodes a text to its length and rejects the text [oops] *)
Module StreamSamples.
Import RequestsClient.

Definition hello : message := {| data := HELLO; event := "message" |}.
Definition byebye : message := {| data := BYEBYE; event := "message" |}.
Definition ledger : message := {| data := "{}"; event := "message" |}.
Definition broken : message := {| data := "oops"; event := "message" |}.

Definition text_length (s : string) : option nat :=
  if String.eqb s "oops" then None else Some (String.length s).

End StreamSamples.

(** * Properties *)

Import Py Mnemonic Samples.

(** ** Sizes of the digests, and the textbook form of HMAC *)
Section DigestSizes.
Import Hashlib.

Lemma be_bytes_length (width : nat) (w : N) : length (be_bytes width w) = width.
Proof.
  unfold be_bytes. now rewrite length_map, length_rev, length_seq.
Qed.

Lemma be_bytes64_length (w : word) : length (be_bytes64 w) = 8.
Proof. destruct w. reflexivity. Qed.

Ltac eight st :=
  do 9 (destruct st as [|? st]; simpl in *; try discriminate; try lia).

Lemma rounds_length (ks : list word) :
  forall w st, length st = 8 -> length (rounds ks w st) = 8.
Proof.
  induction ks as [|k ks IH]; intros w st Hst.
  - destruct st; exact Hst.
  - eight st. apply IH. reflexivity.
Qed.

Lemma add_words_length (xs : list word) :
  forall ys, length xs = length ys -> length (add_words xs ys) = length xs.
Proof.
  induction xs as [|x xs IH]; intros [|y ys] H; simpl in *; try discriminate; auto.
Qed.

Lemma compress_length (h : list word) (block : bytes) :
  length h = 8 -> length (compress h block) = 8.
Proof.
  intros Hh. unfold compress.
  rewrite add_words_length; [exact Hh|].
  now rewrite rounds_length.
Qed.

Lemma blocks_length (n : nat) :
  forall bs h, length h = 8 -> length (blocks n bs h) = 8.
Proof.
  induction n as [|n IH]; intros bs h Hh; simpl; auto.
  apply IH, compress_length, Hh.
Qed.

Lemma flat_map_be_bytes64_length (ws : list word) :
  length (flat_map be_bytes64 ws) = 8 * length ws.
Proof.
  induction ws as [|w ws IH]; cbn [flat_map length]; auto.
  rewrite length_app, be_bytes64_length, IH. lia.
Qed.

Lemma finish_length (h : list word) (absorbed : nat) (msg : bytes) :
  length h = 8 -> length (finish h absorbed msg) = 64.
Proof.
  intros Hh. unfold finish.
  rewrite flat_map_be_bytes64_length, blocks_length; [reflexivity | exact Hh].
Qed.

Lemma sha512_length (msg : bytes) : length (sha512 msg) = 64.
Proof. apply finish_length. reflexivity. Qed.

Lemma hmac_digest_length (h : list word * list word) (msg : bytes) :
  length (snd h) = 8 -> length (hmac_digest h msg) = 64.
Proof. destruct h as [inner outer]. apply finish_length. Qed.

Lemma hmac_new_length (key : bytes) : length (snd (hmac_new key)) = 8.
Proof. apply compress_length. reflexivity. Qed.

Lemma hmac_sha512_length (key msg : bytes) : length (hmac_sha512 key msg) = 64.
Proof. apply hmac_digest_length, hmac_new_length. Qed.

Lemma xor_bytes_length (xs : bytes) :
  forall ys, length xs = length ys -> length (xor_bytes xs ys) = length xs.
Proof.
  induction xs as [|x xs IH]; intros [|y ys] H; simpl in *; try discriminate; auto.
Qed.

Lemma pbkdf2_iter_length (h : list word * list word) (c : nat) :
  length (snd h) = 8 ->
  forall u t, length t = 64 -> length (pbkdf2_iter h c u t) = 64.
Proof.
  intros Hh.
  induction c as [|c IH]; intros u t Ht; simpl; auto.
  apply IH. rewrite xor_bytes_length; rewrite ?hmac_digest_length; auto.
Qed.

Lemma pbkdf2_block_length (password salt : bytes) (c i : nat) :
  length (pbkdf2_block password salt c i) = 64.
Proof.
  unfold pbkdf2_block.
  apply pbkdf2_iter_length; [|apply hmac_digest_length]; apply hmac_new_length.
Qed.

Lemma pbkdf2_hmac_sha512_64 (password salt : bytes) (c : nat) :
  pbkdf2_hmac_sha512 password salt c 64 = pbkdf2_block password salt c 1.
Proof.
  unfold pbkdf2_hmac_sha512.
  change (Nat.div (64 + 63) 64) with 1%nat.
  cbn [seq flat_map].
  rewrite app_nil_r.
  rewrite <- (pbkdf2_block_length password salt c 1) at 1.
  apply firstn_all.
Qed.

Lemma pbkdf2_hmac_sha512_length (password salt : bytes) (c : nat) :
  length (pbkdf2_hmac_sha512 password salt c 64) = 64.
Proof. rewrite pbkdf2_hmac_sha512_64. apply pbkdf2_block_length. Qed.

Lemma bytes_eqb_eq (xs : bytes) :
  forall ys, bytes_eqb xs ys = true -> xs = ys.
Proof.
  induction xs as [|x xs IH]; intros [|y ys] H; cbn [bytes_eqb] in H;
    try discriminate; [reflexivity|].
  apply andb_true_iff in H as [Hx Hxs].
  apply Byte.byte_dec_bl in Hx. subst y. f_equal. now apply IH.
Qed.

Lemma strictly_eq {A : Type} (bs : bytes) (k : bytes -> A) : strictly bs k = k bs.
Proof. unfold strictly. destruct (bytes_eqb bs bs); reflexivity. Qed.

Lemma pbkdf2_iter_strict_eq (h : list word * list word) (c : nat) :
  forall u t, pbkdf2_iter_strict h c u t = pbkdf2_iter h c u t.
Proof.
  induction c as [|c IH]; intros u t; cbn [pbkdf2_iter_strict pbkdf2_iter];
    [reflexivity|].
  now rewrite !strictly_eq, IH.
Qed.

Lemma pbkdf2_block_strict_eq (password salt : bytes) (c i : nat) :
  pbkdf2_block_strict password salt c i = pbkdf2_block password salt c i.
Proof. apply pbkdf2_iter_strict_eq. Qed.

Lemma firstn_32_length (d : bytes) : length d = 64 -> length (firstn 32 d) = 32.
Proof. intros H. rewrite length_firstn, H. reflexivity. Qed.

Lemma pad_after_block (block msg : bytes) :
  length block = 128 ->
  pad 0 (block ++ msg) = block ++ pad 128 msg.
Proof.
  intros Hb. unfold pad.
  rewrite length_app, Hb, Nat.add_0_l.
  replace ((128 + length msg + 17) mod 128) with ((length msg + 17) mod 128).
  - now rewrite <- app_assoc.
  - replace (128 + length msg + 17) with (length msg + 17 + 1 * 128) by lia.
    now rewrite Nat.Div0.mod_add.
Qed.

Lemma blocks_after_block (block rest : bytes) (h : list word) :
  length block = 128 ->
  blocks (Nat.div (length (block ++ rest)) 128) (block ++ rest) h
  = blocks (Nat.div (length rest) 128) rest (compress h block).
Proof.
  intros Hb.
  replace (Nat.div (length (block ++ rest)) 128)
    with (S (Nat.div (length rest) 128)).
  - cbn [blocks].
    rewrite firstn_app, skipn_app, Hb, Nat.sub_diag.
    rewrite firstn_all2, skipn_all2 by lia.
    rewrite firstn_0, skipn_O, app_nil_r. reflexivity.
  - rewrite length_app, Hb.
    replace (128 + length rest) with (length rest + 1 * 128) by lia.
    rewrite Nat.div_add by lia. lia.
Qed.

(** A hash state that has absorbed one block finishes a message as the
    initial state finishes the block followed by the message. *)
Lemma finish_after_block (block msg : bytes) :
  length block = 128 ->
  finish (compress H512 block) 128 msg = sha512 (block ++ msg).
Proof.
  intros Hb. unfold sha512, finish.
  rewrite (pad_after_block _ _ Hb), (blocks_after_block _ _ _ Hb).
  reflexivity.
Qed.

Lemma block_key_length (key : bytes) : length (block_key key) = 128.
Proof.
  unfold block_key.
  destruct (Nat.ltb_spec 128 (length key)) as [Hlong|Hshort];
    rewrite length_app, repeat_length.
  - rewrite sha512_length. reflexivity.
  - lia.
Qed.

(** HMAC as RFC 2104 writes it:
    [H ((K xor opad) || H ((K xor ipad) || text))]. *)
Lemma hmac_sha512_rfc2104 (key msg : bytes) :
  hmac_sha512 key msg
  = sha512 (map (xor_byte x5c) (block_key key)
            ++ sha512 (map (xor_byte x36) (block_key key) ++ msg)).
Proof.
  unfold hmac_sha512, hmac_new, hmac_digest.
  rewrite !finish_after_block; [reflexivity | |];
    now rewrite length_map, block_key_length.
Qed.

End DigestSizes.

(** ** Known answers of the hash primitives

    The digests are those of FIPS 180-4 (["abc"]), of RFC 4231 (test
    case 2) and of the usual PBKDF2-HMAC-SHA512 vector. *)
Section KnownAnswers.

Example sha512_abc :
  Reference.hex (Hashlib.sha512 (bytes_of_string "abc"))
  = "ddaf35a193617abacc417349ae20413112e6fa4e89a97ea20a9eeee64b55d39a2192992a274fc1a836ba3c23a3feebbd454d4423643ce80e2a9ac94fa54ca49f"%string.
Proof. vm_compute. reflexivity. Qed.

Example hmac_sha512_rfc4231 :
  Reference.hex
    (Hashlib.hmac_sha512 (bytes_of_string "Jefe")
       (bytes_of_string "what do ya want for nothing?"))
  = "164b7a7bfcf819e2e395fbe73b56e0a387bd64222e831fd610270cd7ea2505549758bf75c05a994a6d034f65f8f0e6fdcaeab1a34d4a6b4b636e070a38bce737"%string.
Proof. vm_compute. reflexivity. Qed.

Example pbkdf2_password_salt :
  Reference.hex
    (Hashlib.pbkdf2_hmac_sha512 (bytes_of_string "password")
       (bytes_of_string "salt") 2 64)
  = "e1d9c16aa681708a45f5c7c4e215ceb66e011a2e9f0040713f18aefdb866d53cf76cab2868a39b9f7840edce4fef5a82be67335c77a6068e04112754f27ccf4e"%string.
Proof. vm_compute. reflexivity. Qed.

End KnownAnswers.

(** ** The path string of [derive] *)
Section PathString.
Import Py.
Local Open Scope string_scope.

Lemma split_nonempty (sep : ascii) (s : string) : split sep s <> [].
Proof.
  destruct s as [|c r]; simpl; [discriminate|].
  destruct (Ascii.eqb c sep); [discriminate|].
  destruct (split sep r); discriminate.
Qed.

Lemma split_free (sep : ascii) (s : string) :
  free_of sep s = true -> split sep s = [s].
Proof.
  induction s as [|c r IH]; simpl; intros H; auto.
  apply andb_true_iff in H as [Hc Hr].
  apply negb_true_iff in Hc. rewrite Hc, (IH Hr). reflexivity.
Qed.

Lemma split_segment (sep : ascii) (a b : string) :
  free_of sep a = true ->
  split sep (a ++ String sep b) = a :: split sep b.
Proof.
  induction a as [|c r IH]; simpl; intros H.
  - now rewrite Ascii.eqb_refl.
  - apply andb_true_iff in H as [Hc Hr].
    apply negb_true_iff in Hc. rewrite Hc, (IH Hr). reflexivity.
Qed.

Lemma free_of_app (sep : ascii) (a b : string) :
  free_of sep (a ++ b) = free_of sep a && free_of sep b.
Proof.
  induction a as [|c r IH]; simpl; auto.
  rewrite IH. apply andb_assoc.
Qed.

Lemma free_of_uint (d : Decimal.uint) :
  free_of "/" (NilEmpty.string_of_uint d) = true.
Proof. induction d; simpl; auto. Qed.

Lemma free_of_format_d (n : Z) : free_of "/" (format_d n) = true.
Proof.
  unfold format_d, NilZero.string_of_int, NilZero.string_of_uint.
  destruct (Z.to_int n) as [d|d]; destruct d; simpl; auto using free_of_uint.
Qed.

Lemma drop_last_app (s : string) (c : ascii) :
  drop_last (s ++ String c EmptyString) = s.
Proof.
  induction s as [|a r IH]; simpl; auto.
  rewrite IH. destruct r; reflexivity.
Qed.

Lemma py_int_format_d (n : Z) : py_int (format_d n) = Ok n.
Proof.
  unfold py_int, format_d.
  rewrite NilZero.isi.
  - now rewrite DecimalZ.of_to.
  - destruct n; simpl; try discriminate.
    intros [= H]. now apply Unsigned.to_uint_nonnil in H.
  - destruct n; simpl; try discriminate.
    intros [= H]. now apply Unsigned.to_uint_nonnil in H.
Qed.

(** The formatted path and its segments after the leading ["m"]. *)
Lemma path_format (index : Z) :
  percent_d Mnemonic.STELLAR_ACCOUNT_PATH_FORMAT index
  = "m/44'/148'/" ++ format_d index ++ "'".
Proof. reflexivity. Qed.

Lemma path_segments (index : Z) :
  tl (split "/" (percent_d Mnemonic.STELLAR_ACCOUNT_PATH_FORMAT index))
  = ["44'"; "148'"; format_d index ++ "'"].
Proof.
  rewrite path_format.
  change ("m/44'/148'/" ++ format_d index ++ "'")
    with ("m" ++ String "/" ("44'" ++ String "/" ("148'" ++
            String "/" (format_d index ++ "'")))).
  rewrite !split_segment by reflexivity.
  rewrite split_free; [reflexivity|].
  rewrite free_of_app, free_of_format_d. reflexivity.
Qed.

(** A negative index is printed with its minus sign. *)
Lemma format_d_negative (n : Z) :
  (n < 0)%Z -> format_d n = String "-" (format_d (- n)).
Proof.
  destruct n as [|q|q]; try lia. intros _.
  unfold format_d; simpl. reflexivity.
Qed.

(** The digit limit lies far above every number of 32 bits. *)
Lemma str_digits_bound_large : (2 ^ 32 < str_digits_bound)%Z.
Proof.
  unfold str_digits_bound, int_max_str_digits.
  apply Z.lt_le_trans with (10 ^ 10)%Z; [reflexivity|].
  apply Z.pow_le_mono_r; lia.
Qed.

Lemma exceeds_str_digits_true (n : Z) :
  exceeds_str_digits n = true <-> (str_digits_bound <= Z.abs n)%Z.
Proof. apply Z.leb_le. Qed.

Lemma exceeds_str_digits_false (n : Z) :
  exceeds_str_digits n = false <-> (Z.abs n < str_digits_bound)%Z.
Proof. apply Z.leb_gt. Qed.

Lemma checked_percent_d_within (fmt : string) (n : Z) :
  (Z.abs n < str_digits_bound)%Z ->
  checked_percent_d fmt n = Ok (percent_d fmt n).
Proof.
  intros H. apply exceeds_str_digits_false in H.
  unfold checked_percent_d. now rewrite H.
Qed.

End PathString.

(** ** What [derive] computes *)
Section Derive.
Import Py Mnemonic.
Local Open Scope Z_scope.

Lemma derive_loop_nil (il ir : bytes) (w : world) :
  derive_loop [] il ir w = (Ok il, w).
Proof. reflexivity. Qed.

(** One turn of the loop, on the segment that prints [n]. *)
Lemma derive_loop_step (n : Z) (rest : list string) (chain : bytes * bytes)
      (w : world) :
  derive_loop ((format_d n ++ "'")%string :: rest) (fst chain) (snd chain) w
  = if (0 <=? 2 ^ 31 + n) && (2 ^ 31 + n <=? 0xFFFFFFFF)
    then
      derive_loop rest (fst (Reference.hardened_child chain n))
                  (snd (Reference.hardened_child chain n)) (record HmacSha512 w)
    else (Raise StructError, w).
Proof.
  destruct chain as [il ir].
  cbn [derive_loop fst snd]. unfold bind at 1, lift at 1.
  rewrite drop_last_app, py_int_format_d.
  unfold bind at 1, lift at 1, struct_pack_I.
  change FIRST_HARDENED_INDEX with (2 ^ 31).
  destruct ((0 <=? 2 ^ 31 + n) && (2 ^ 31 + n <=? 0xFFFFFFFF)); [|reflexivity].
  unfold bind at 1, hmac_digest at 1.
  reflexivity.
Qed.

(** [derive] on every index: inside the window of four-byte child numbers it
    is the reference walk and costs four HMAC computations; outside, an
    index too long to be printed stops the formatting of the path, after
    the master HMAC, and any other makes the packing of the third child
    number raise, after three. *)
Lemma derive_run (seed : bytes) (index : Z) (w : world) :
  derive seed index w
  = if (- 2 ^ 31 <=? index) && (index <? 2 ^ 31)
    then (Ok (Reference.slip10 seed index), hmacs 4 w)
    else if exceeds_str_digits index
    then (Raise IntStrLimitError, hmacs 1 w)
    else (Raise StructError, hmacs 3 w).
Proof.
  unfold derive. unfold bind at 1, hmac_digest at 1.
  unfold bind at 1, lift at 1, checked_percent_d.
  destruct (exceeds_str_digits index) eqn:Hx.
  { apply exceeds_str_digits_true in Hx.
    pose proof str_digits_bound_large as Hb.
    replace ((- 2 ^ 31 <=? index) && (index <? 2 ^ 31)) with false.
    - reflexivity.
    - symmetry. apply andb_false_iff.
      destruct (Z.leb_spec (- 2 ^ 31) index); [right | now left].
      apply Z.ltb_ge. lia. }
  rewrite path_segments.
  change "44'"%string with (format_d 44 ++ "'")%string.
  change "148'"%string with (format_d 148 ++ "'")%string.
  change (firstn 32 (Hashlib.hmac_sha512 SEED_MODIFIER seed))
    with (fst (Reference.master seed)).
  change (skipn 32 (Hashlib.hmac_sha512 SEED_MODIFIER seed))
    with (snd (Reference.master seed)).
  rewrite (derive_loop_step 44).
  change ((0 <=? 2 ^ 31 + 44) && (2 ^ 31 + 44 <=? 0xFFFFFFFF)) with true.
  cbv iota.
  rewrite (derive_loop_step 148).
  change ((0 <=? 2 ^ 31 + 148) && (2 ^ 31 + 148 <=? 0xFFFFFFFF)) with true.
  cbv iota.
  rewrite (derive_loop_step index).
  replace ((0 <=? 2 ^ 31 + index) && (2 ^ 31 + index <=? 0xFFFFFFFF))
    with ((- 2 ^ 31 <=? index) && (index <? 2 ^ 31)).
  2:{ destruct (Z.leb_spec (- 2 ^ 31) index), (Z.ltb_spec index (2 ^ 31)),
        (Z.leb_spec 0 (2 ^ 31 + index)),
        (Z.leb_spec (2 ^ 31 + index) 0xFFFFFFFF); simpl; try reflexivity; lia. }
  unfold hmacs. cbn [Nat.iter].
  destruct ((- 2 ^ 31 <=? index) && (index <? 2 ^ 31)); [|reflexivity].
  rewrite derive_loop_nil.
  unfold Reference.slip10. cbn [fold_left]. reflexivity.
Qed.

Lemma derive_value (seed : bytes) (index : Z) (w : world) :
  - 2 ^ 31 <= index < 2 ^ 31 ->
  value (derive seed index w) = Ok (Reference.slip10 seed index).
Proof.
  intros [Hlo Hhi]. rewrite derive_run.
  replace (- 2 ^ 31 <=? index) with true by (symmetry; apply Z.leb_le; lia).
  replace (index <? 2 ^ 31) with true by (symmetry; apply Z.ltb_lt; lia).
  reflexivity.
Qed.

Lemma hardened_child_length (chain : bytes * bytes) (segment : Z) :
  length (fst (Reference.hardened_child chain segment)) = 32%nat.
Proof.
  destruct chain as [il ir]. unfold Reference.hardened_child, Reference.halves.
  cbn [fst]. apply firstn_32_length, hmac_sha512_length.
Qed.

Lemma slip10_length (seed : bytes) (index : Z) :
  length (Reference.slip10 seed index) = 32%nat.
Proof.
  unfold Reference.slip10. cbn [fold_left]. apply hardened_child_length.
Qed.

End Derive.

(** ** The claims about [derive] *)
Section DeriveClaims.
Import Py Mnemonic Samples.
Local Open Scope Z_scope.

(** C1. For every seed and every account index [0 <= index < 2^31],
    [derive seed index] returns the key material of the SLIP-0010
    hardened-only reference computation: the master HMAC-SHA512 keyed with
    ["ed25519 seed"], then one hardened child step for each of the segments
    44, 148 and [index]; the result has exactly 32 bytes. *)
Theorem derive_is_slip10 (seed : bytes) (index : Z) (w : world) :
  0 <= index < 2 ^ 31 ->
  value (derive seed index w) = Ok (Reference.slip10 seed index)
  /\ length (Reference.slip10 seed index) = 32%nat.
Proof.
  intros [Hlo Hhi]. split; [|apply slip10_length].
  rewrite derive_run.
  replace (- 2 ^ 31 <=? index) with true by (symmetry; apply Z.leb_le; lia).
  replace (index <? 2 ^ 31) with true by (symmetry; apply Z.ltb_lt; lia).
  reflexivity.
Qed.

Lemma derive_is_slip10_witness :
  0 <= 7 < 2 ^ 31
  /\ value (derive zero_seed 7 blank_world) = Ok (Reference.slip10 zero_seed 7)
  /\ length (Reference.slip10 zero_seed 7) = 32%nat.
Proof.
  split; [lia|]. apply (derive_is_slip10 zero_seed 7 blank_world). lia.
Defined.

(** C3, as amended.  For every seed and every non-negative index, [derive]
    fails if and only if [index >= 2^31].  For an index from [2^31] on that
    the interpreter can print (at most 4300 digits) the failure is the
    [struct.error] of packing the third child number, raised after the
    master HMAC and the two fixed child steps have been computed; for an
    index of more digits it is the built-in [ValueError] of the [%d]
    conversion, raised while the path is formatted, after the master HMAC.
    For [index <= 2^31 - 1] (the boundary included) [derive] succeeds and
    returns 32 bytes. *)
Theorem derive_index_window (seed : bytes) (index : Z) (w : world) :
  0 <= index ->
  ((exists e, value (derive seed index w) = Raise e) <-> index >= 2 ^ 31)
  /\ (2 ^ 31 <= index < str_digits_bound ->
      derive seed index w = (Raise StructError, hmacs 3 w))
  /\ (str_digits_bound <= index ->
      derive seed index w = (Raise IntStrLimitError, hmacs 1 w))
  /\ (index <= 2 ^ 31 - 1 ->
      exists key, derive seed index w = (Ok key, hmacs 4 w) /\ length key = 32%nat).
Proof.
  intros Hlo. rewrite derive_run.
  replace (- 2 ^ 31 <=? index) with true by (symmetry; apply Z.leb_le; lia).
  rewrite andb_true_l.
  pose proof str_digits_bound_large as Hb.
  destruct (Z.ltb_spec index (2 ^ 31)) as [Hin|Hout].
  - split; [|split; [|split]].
    + split; [intros [e He]; discriminate He | lia].
    + lia.
    + lia.
    + intros _. exists (Reference.slip10 seed index).
      split; [reflexivity | apply slip10_length].
  - destruct (exceeds_str_digits index) eqn:Hx.
    + apply exceeds_str_digits_true in Hx.
      split; [|split; [|split]].
      * split; [lia | intros _; exists IntStrLimitError; reflexivity].
      * lia.
      * reflexivity.
      * lia.
    + apply exceeds_str_digits_false in Hx.
      split; [|split; [|split]].
      * split; [lia | intros _; exists StructError; reflexivity].
      * reflexivity.
      * lia.
      * lia.
Qed.

Lemma derive_index_window_witness :
  0 <= 2 ^ 31 - 1
  /\ exists key,
       derive zero_seed (2 ^ 31 - 1) blank_world = (Ok key, hmacs 4 blank_world)
       /\ length key = 32%nat.
Proof.
  split; [lia|].
  apply (derive_index_window zero_seed (2 ^ 31 - 1) blank_world); lia.
Defined.

(** C3, as stated, fails at the index [2^31]: the failure is not the SDK's
    error raised before any computation, it is a [struct.error] raised once
    three HMAC computations have been made. *)
Lemma derive_rejects_late :
  derive zero_seed (2 ^ 31) blank_world = (Raise StructError, hmacs 3 blank_world)
  /\ calls (hmacs 3 blank_world) = [HmacSha512; HmacSha512; HmacSha512]
  /\ ~ (exists msg : string,
          derive zero_seed (2 ^ 31) blank_world
          = (Raise (ValueError msg), blank_world)).
Proof.
  rewrite derive_run.
  change ((- 2 ^ 31 <=? 2 ^ 31) && (2 ^ 31 <? 2 ^ 31)) with false.
  replace (exceeds_str_digits (2 ^ 31)) with false
    by (symmetry; apply exceeds_str_digits_false;
        pose proof str_digits_bound_large; lia).
  split; [reflexivity|]. split; [reflexivity|].
  intros [msg H]. discriminate H.
Qed.

(** C8. [derive] makes no range check on its index: for every index with
    [-2^31 <= index < 0] it raises nothing and returns 32 bytes; the negative
    index is printed into the path string, and the child number packed
    big-endian for the third step is [2^31 + index], which lies below
    [2^31], outside the hardened range. *)
Theorem derive_negative_index (seed : bytes) (index : Z) (w : world) :
  - 2 ^ 31 <= index < 0 ->
  percent_d STELLAR_ACCOUNT_PATH_FORMAT index
  = ("m/44'/148'/-" ++ format_d (- index) ++ "'")%string
  /\ 0 <= 2 ^ 31 + index < 2 ^ 31
  /\ exists key,
       derive seed index w = (Ok key, hmacs 4 w)
       /\ length key = 32%nat
       /\ let '(il, ir) :=
            fold_left Reference.hardened_child [44; 148] (Reference.master seed) in
          key = firstn 32
                  (Hashlib.hmac_sha512 ir
                     (x00 :: il ++ be_bytes 4 (Z.to_N (2 ^ 31 + index)))).
Proof.
  intros [Hlo Hhi]. split; [|split].
  - rewrite path_format, format_d_negative by lia. reflexivity.
  - lia.
  - exists (Reference.slip10 seed index). split; [|split].
    + rewrite derive_run.
      replace (- 2 ^ 31 <=? index) with true by (symmetry; apply Z.leb_le; lia).
      replace (index <? 2 ^ 31) with true by (symmetry; apply Z.ltb_lt; lia).
      reflexivity.
    + apply slip10_length.
    + unfold Reference.slip10.
      change [44; 148; index] with ([44; 148] ++ [index]).
      rewrite fold_left_app.
      destruct (fold_left Reference.hardened_child [44; 148]
                  (Reference.master seed)) as [il ir].
      reflexivity.
Qed.

Lemma derive_negative_index_witness :
  - 2 ^ 31 <= - 5 < 0
  /\ exists key,
       derive zero_seed (- 5) blank_world = (Ok key, hmacs 4 blank_world)
       /\ length key = 32%nat.
Proof.
  split; [lia|].
  destruct (derive_negative_index zero_seed (- 5) blank_world) as (_ & _ & key & H & L & _);
    [lia|].
  exists key. split; assumption.
Defined.

End DeriveClaims.

(** ** The claims about [to_seed] *)
Section ToSeedClaims.
Import Py Mnemonic Samples.
Local Open Scope Z_scope.
Context {pkg : MnemonicPackage}.

Lemma utf8_app (a b : ustr) :
  utf8 (a ++ b)
  = match utf8 a, utf8 b with
    | Some x, Some y => Some (x ++ y)
    | _, _ => None
    end.
Proof.
  induction a as [|c a IH]; cbn [utf8 app].
  - destruct (utf8 b); reflexivity.
  - rewrite IH.
    destruct (utf8_char c), (utf8 a), (utf8 b); try reflexivity.
    now rewrite app_assoc.
Qed.

Lemma utf8_salt_prefix :
  utf8 (ustr_of_string "mnemonic") = Some (bytes_of_string "mnemonic").
Proof. reflexivity. Qed.

(** [to_seed] on every input: the stretched seed of the reference, handed to
    [derive]; an encoding failure is raised before anything is computed. *)
Lemma to_seed_run (mnemonic passphrase : ustr) (index : Z) (w : world) :
  to_seed mnemonic passphrase index w
  = match Reference.stretch normalize_string mnemonic passphrase with
    | Some seed => derive seed index (record (Pbkdf2HmacSha512 2048) w)
    | None => (Raise UnicodeEncodeError, w)
    end.
Proof.
  unfold to_seed, Reference.stretch.
  unfold bind at 1, lift at 1, encode_utf8 at 1.
  destruct (utf8 (normalize_string mnemonic)) as [password|]; [|reflexivity].
  unfold bind at 1, lift at 1, encode_utf8 at 1.
  rewrite utf8_app, utf8_salt_prefix.
  destruct (utf8 (normalize_string passphrase)) as [pass|]; [|reflexivity].
  unfold bind at 1, pbkdf2_hmac at 1.
  change PBKDF2_ROUNDS with 2048%nat.
  change Hashlib.digest_size with 64%nat.
  rewrite firstn_all2; [reflexivity|].
  rewrite pbkdf2_hmac_sha512_length. apply le_n.
Qed.

Lemma stretch_length (nfkd : ustr -> ustr) (mnemonic passphrase : ustr) :
  match Reference.stretch nfkd mnemonic passphrase with
  | Some seed => length seed = 64%nat
  | None => True
  end.
Proof.
  unfold Reference.stretch.
  destruct (utf8 (nfkd mnemonic)); [|exact I].
  destruct (utf8 (nfkd passphrase)); [|exact I].
  apply pbkdf2_hmac_sha512_length.
Qed.

(** The world after [to_seed]: the tape and its position are untouched and
    only hash computations have been added to the calls. *)
Lemma to_seed_world (mnemonic passphrase : ustr) (index : Z) (w : world) :
  entropy (after (to_seed mnemonic passphrase index w)) = entropy w
  /\ cursor (after (to_seed mnemonic passphrase index w)) = cursor w
  /\ exists added,
       calls (after (to_seed mnemonic passphrase index w)) = calls w ++ added
       /\ Forall is_hash_call added.
Proof.
  rewrite to_seed_run.
  destruct (Reference.stretch normalize_string mnemonic passphrase) as [seed|].
  - rewrite derive_run.
    destruct ((- 2 ^ 31 <=? index) && (index <? 2 ^ 31)).
    + cbn. repeat split.
      exists [Pbkdf2HmacSha512 2048; HmacSha512; HmacSha512; HmacSha512; HmacSha512].
      split; [now rewrite <- !app_assoc | repeat constructor].
    + destruct (exceeds_str_digits index); cbn.
      * repeat split.
        exists [Pbkdf2HmacSha512 2048; HmacSha512].
        split; [now rewrite <- !app_assoc | repeat constructor].
      * repeat split.
        exists [Pbkdf2HmacSha512 2048; HmacSha512; HmacSha512; HmacSha512].
        split; [now rewrite <- !app_assoc | repeat constructor].
  - cbn. repeat split. exists []. split; [now rewrite app_nil_r | constructor].
Qed.

(** C2. For every mnemonic, passphrase and index, [to_seed] normalises both
    strings, takes as salt the ASCII bytes of ["mnemonic"] followed by the
    encoded normalised passphrase, computes PBKDF2-HMAC-SHA512 of the encoded
    normalised mnemonic with 2048 iterations and 64 bytes of output, and
    passes exactly these 64 bytes to [derive] with the given index.  (A
    string that has no UTF-8 encoding makes [encode] raise first.) *)
Theorem to_seed_stretches (mnemonic passphrase : ustr) (index : Z) (w : world) :
  to_seed mnemonic passphrase index w
  = match Reference.stretch normalize_string mnemonic passphrase with
    | Some seed => derive seed index (record (Pbkdf2HmacSha512 2048) w)
    | None => (Raise UnicodeEncodeError, w)
    end
  /\ match Reference.stretch normalize_string mnemonic passphrase with
     | Some seed => length seed = 64%nat
     | None => True
     end.
Proof.
  split; [apply to_seed_run | apply stretch_length].
Qed.

(** C7. [to_seed] is deterministic: its result is the same in every world,
    it reads nothing from the tape of random bytes and leaves the world
    unchanged but for the hash computations it records; on a valid triple
    (both strings encodable, [0 <= index < 2^31]) this result is a key of
    32 bytes. *)
Theorem to_seed_deterministic (mnemonic passphrase : ustr) (index : Z) :
  (exists r, forall w,
      value (to_seed mnemonic passphrase index w) = r
      /\ entropy (after (to_seed mnemonic passphrase index w)) = entropy w
      /\ cursor (after (to_seed mnemonic passphrase index w)) = cursor w)
  /\ (utf8 (normalize_string mnemonic) <> None ->
      utf8 (normalize_string passphrase) <> None ->
      0 <= index < 2 ^ 31 ->
      exists key, length key = 32%nat
                  /\ forall w, value (to_seed mnemonic passphrase index w) = Ok key).
Proof.
  split.
  - exists (match Reference.stretch normalize_string mnemonic passphrase with
            | Some seed =>
                if (- 2 ^ 31 <=? index) && (index <? 2 ^ 31)
                then Ok (Reference.slip10 seed index)
                else if exceeds_str_digits index then Raise IntStrLimitError
                else Raise StructError
            | None => Raise UnicodeEncodeError
            end).
    intros w. split; [|split; apply to_seed_world].
    rewrite to_seed_run.
    destruct (Reference.stretch normalize_string mnemonic passphrase) as [seed|];
      [|reflexivity].
    rewrite derive_run.
    destruct ((- 2 ^ 31 <=? index) && (index <? 2 ^ 31)); [reflexivity|].
    destruct (exceeds_str_digits index); reflexivity.
  - intros Hm Hp Hi.
    assert (exists seed,
               Reference.stretch normalize_string mnemonic passphrase = Some seed)
      as [seed Hseed].
    { unfold Reference.stretch.
      destruct (utf8 (normalize_string mnemonic)); [|contradiction].
      destruct (utf8 (normalize_string passphrase)); [|contradiction].
      eexists; reflexivity. }
    exists (Reference.slip10 seed index). split; [apply slip10_length|].
    intros w. rewrite to_seed_run, Hseed.
    apply derive_value. lia.
Qed.

(** C9. The word-list language has no part in the derivation: [to_seed]
    (a class method) and [derive] (a static method) give the same result
    whether they are looked up on the class or on an instance of any
    language, and among the calls [to_seed] makes there is none to the
    constructor, only hash computations. *)
Theorem to_seed_ignores_language (self1 self2 : StellarMnemonic)
        (mnemonic passphrase : ustr) (seed : bytes) (index : Z) (w : world) :
  bound_to_seed (OnInstance self1) mnemonic passphrase index w
  = bound_to_seed (OnInstance self2) mnemonic passphrase index w
  /\ bound_to_seed (OnInstance self1) mnemonic passphrase index w
     = bound_to_seed OnClass mnemonic passphrase index w
  /\ bound_derive (OnInstance self1) seed index w
     = bound_derive OnClass seed index w
  /\ exists added,
       calls (after (bound_to_seed OnClass mnemonic passphrase index w))
       = calls w ++ added
       /\ Forall is_hash_call added
       /\ forall language, ~ In (MnemonicInit language) added.
Proof.
  repeat split.
  destruct (to_seed_world mnemonic passphrase index w) as (_ & _ & added & Hc & Hh).
  exists added. split; [exact Hc|]. split; [exact Hh|].
  intros language Hin.
  rewrite Forall_forall in Hh. exact (Hh _ Hin).
Qed.

End ToSeedClaims.

Lemma to_seed_deterministic_witness :
  utf8 (@normalize_string plain_package []) <> None
  /\ (0 <= 3 < 2 ^ 31)%Z
  /\ exists key, length key = 32%nat
                 /\ forall w, value (@to_seed plain_package [] [] 3%Z w) = Ok key.
Proof.
  assert (H : utf8 (@normalize_string plain_package []) <> None) by discriminate.
  split; [exact H|]. split; [lia|].
  apply (proj2 (@to_seed_deterministic plain_package [] [] 3%Z)); [exact H|exact H|lia].
Defined.

(** ** The claims about the constructor and [generate] *)
Section PackageClaims.
Local Open Scope Z_scope.
Context {pkg : MnemonicPackage}.

Lemma super_init_value (language : string) (w : world) (msg : string) :
  value (super_init language w) <> Raise (ValueError msg).
Proof.
  unfold super_init, value. cbn [fst].
  destruct (Mnemonic_init language); discriminate.
Qed.

Lemma language_values_spec (s : string) :
  existsb (String.eqb s) (map Language_value Language_members) = true
  <-> exists l, s = Language_value l.
Proof.
  rewrite existsb_exists. split.
  - intros (x & Hin & Heq). apply String.eqb_eq in Heq. subst x.
    apply in_map_iff in Hin as (l & Hl & _). exists l. now symmetry.
  - intros [l ->]. exists (Language_value l). split.
    + apply in_map. destruct l; cbn; tauto.
    + apply String.eqb_refl.
Qed.

(** C5. The constructor fails with the SDK's [ValueError] if and only if its
    argument is neither a member of [Language] nor one of the values of the
    members; when it does, nothing has been called yet: neither the
    constructor of the base class nor any part of a derivation. *)
Theorem init_rejects_unsupported (arg : language_arg) (w : world) :
  ((exists msg, value (init arg w) = Raise (ValueError msg))
   <-> (forall l, arg <> ArgLanguage l) /\ (forall l, arg <> ArgStr (Language_value l)))
  /\ match value (init arg w) with
     | Raise (ValueError _) => after (init arg w) = w
     | _ => True
     end.
Proof.
  destruct arg as [l|s].
  - assert (E : init (ArgLanguage l) w = super_init (Language_value l) w) by reflexivity.
    rewrite E. split.
    + split.
      * intros [msg H]. now apply super_init_value in H.
      * intros [H _]. now destruct (H l).
    + destruct (value (super_init (Language_value l) w)) as [|e] eqn:H; [exact I|].
      destruct e; try exact I. now apply super_init_value in H.
  - unfold init, bind, ret, raise.
    destruct (existsb (String.eqb s) (map Language_value Language_members)) eqn:Hs;
      cbn [negb]; cbv beta iota.
    + apply language_values_spec in Hs as [l ->].
      split.
      * split.
        -- intros [msg H]. now apply super_init_value in H.
        -- intros [_ H]. now destruct (H l).
      * destruct (value (super_init (Language_value l) w)) as [|e] eqn:H; [exact I|].
        destruct e; try exact I. now apply super_init_value in H.
    + cbn [value after fst snd]. split; [|reflexivity].
      split.
      * intros _. split; [discriminate|].
        intros l [= ->].
        assert (existsb (String.eqb (Language_value l))
                  (map Language_value Language_members) = true) as Hl
            by (apply language_values_spec; now exists l).
        congruence.
      * intros _. eexists. reflexivity.
Qed.



End PackageClaims.



(** ** The claim about the event stream *)
Section StreamClaims.
Import RequestsClient.
Variable json : Type.
Variable json_loads : string -> option json.

Lemma SSEClient_next_keepalive (msg : message) (rest : list message) :
  is_keepalive msg = true ->
  SSEClient_next json json_loads (msg :: rest) = SSEClient_next json json_loads rest.
Proof.
  unfold is_keepalive. cbn [SSEClient_next]. intros H.
  destruct (String.eqb (data msg) HELLO), (String.eqb (data msg) BYEBYE);
    try discriminate; reflexivity.
Qed.

Lemma SSEClient_next_payload (msg : message) (rest : list message) :
  is_keepalive msg = false ->
  SSEClient_next json json_loads (msg :: rest) = (loads json json_loads (data msg), rest).
Proof.
  unfold is_keepalive. cbn [SSEClient_next]. intros H.
  apply orb_false_iff in H as [-> ->]. reflexivity.
Qed.

(** [__next__] looks through the keep-alive messages. *)
Lemma SSEClient_next_filter (pending : list message) :
  fst (SSEClient_next json json_loads pending)
  = fst (SSEClient_next json json_loads
           (filter (fun m => negb (is_keepalive m)) pending)).
Proof.
  induction pending as [|msg rest IH]; [reflexivity|].
  cbn [filter]. destruct (is_keepalive msg) eqn:Hk; cbn [negb].
  - now rewrite SSEClient_next_keepalive.
  - now rewrite !SSEClient_next_payload.
Qed.

Lemma stream_unfold (pending : list message) :
  stream json json_loads pending
  = match SSEClient_next json json_loads pending with
    | (Ok v, rest) =>
        let '(vs, e) := stream json json_loads rest in (v :: vs, e)
    | (Raise e, _) => ([], e)
    end.
Proof.
  funelim (stream json json_loads pending);
    match goal with
    | E : SSEClient_next _ _ _ = _ |- _ => rewrite E
    end; reflexivity.
Qed.

(** C10. Whatever messages the server sends, the stream yields exactly the
    decoded data of those whose raw data is neither the string
    ["hello"] nor the string ["byebye"] (double quotes included), in order,
    until one fails to decode or the messages are exhausted; a keep-alive
    message is passed over and the iteration goes on with the next
    message.  So every value yielded is the decoding of a message that is
    not a keep-alive. *)
Theorem stream_skips_keepalives (pending : list message) :
  stream json json_loads pending
  = decoded json json_loads (filter (fun m => negb (is_keepalive m)) pending)
  /\ (forall msg rest,
        data msg = HELLO \/ data msg = BYEBYE ->
        stream json json_loads (msg :: rest) = stream json json_loads rest)
  /\ Forall (fun v => exists msg,
                 In msg pending
                 /\ data msg <> HELLO /\ data msg <> BYEBYE
                 /\ json_loads (data msg) = Some v)
            (fst (stream json json_loads pending)).
Proof.
  assert (Hskip : forall msg rest,
             is_keepalive msg = true ->
             stream json json_loads (msg :: rest) = stream json json_loads rest).
  { intros msg rest Hk.
    rewrite (stream_unfold (msg :: rest)), (stream_unfold rest).
    now rewrite SSEClient_next_keepalive. }
  assert (Heq : stream json json_loads pending
                = decoded json json_loads
                    (filter (fun m => negb (is_keepalive m)) pending)).
  { induction pending as [|msg rest IH].
    - rewrite stream_unfold. reflexivity.
    - cbn [filter]. destruct (is_keepalive msg) eqn:Hk; cbn [negb].
      + now rewrite Hskip.
      + rewrite stream_unfold, SSEClient_next_payload by exact Hk.
        cbn [decoded]. unfold loads.
        destruct (json_loads (data msg)); [|reflexivity].
        now rewrite IH. }
  split; [exact Heq|]. split.
  - intros msg rest Hd. apply Hskip. unfold is_keepalive.
    destruct Hd as [-> | ->]; rewrite String.eqb_refl;
      [reflexivity | apply orb_true_r].
  - rewrite Heq. clear Heq Hskip.
    induction pending as [|msg rest IH]; [constructor|].
    cbn [filter]. destruct (is_keepalive msg) eqn:Hk; cbn [negb].
    + eapply Forall_impl; [|exact IH].
      intros v (m & Hin & H). exists m. split; [now right | exact H].
    + cbn [decoded].
      destruct (json_loads (data msg)) as [v|] eqn:Hv; [|constructor].
      destruct (decoded json json_loads
                  (filter (fun m => negb (is_keepalive m)) rest)) as [vs e].
      cbn [fst] in *. constructor.
      * exists msg. split; [now left|].
        unfold is_keepalive in Hk. apply orb_false_iff in Hk as [H1 H2].
        apply String.eqb_neq in H1, H2. auto.
      * eapply Forall_impl; [|exact IH].
        intros v' (m & Hin & H). exists m. split; [now right | exact H].
Qed.

End StreamClaims.

Lemma stream_skips_keepalives_witness :
  RequestsClient.data {| RequestsClient.data := RequestsClient.HELLO;
                         RequestsClient.event := "message" |}
  = RequestsClient.HELLO
  /\ RequestsClient.stream nat (fun s => Some (String.length s))
       [ {| RequestsClient.data := RequestsClient.HELLO;
            RequestsClient.event := "message" |};
         {| RequestsClient.data := "{}"; RequestsClient.event := "message" |} ]
     = RequestsClient.stream nat (fun s => Some (String.length s))
         [ {| RequestsClient.data := "{}"; RequestsClient.event := "message" |} ].
Proof.
  split; [reflexivity|].
  apply (stream_skips_keepalives nat (fun s => Some (String.length s)) []).
  left. reflexivity.
Defined.

(** ** The published test vector *)
Section TestVector.
Local Open Scope Z_scope.

(** The stretching of the mnemonic with the empty passphrase: 2048 rounds
    of HMAC-SHA512, evaluated. *)
Lemma sep5_stretched :
  Hashlib.pbkdf2_hmac_sha512 (bytes_of_string Sep5.mnemonic)
    (bytes_of_string "mnemonic" ++ []) 2048 64
  = Sep5.bip39_seed.
Proof.
  rewrite pbkdf2_hmac_sha512_64, <- pbkdf2_block_strict_eq.
  apply bytes_eqb_eq.
  vm_cast_no_check (@eq_refl bool true).
Qed.

Lemma sep5_derived : Reference.slip10 Sep5.bip39_seed 0 = Sep5.key.
Proof. vm_cast_no_check (@eq_refl bytes Sep5.key). Qed.

Lemma sep5_public_key : Ed25519.public_key Sep5.key = Sep5.public_key.
Proof. vm_cast_no_check (@eq_refl bytes Sep5.public_key). Qed.

Lemma sep5_strkeys :
  StrKey.secret_seed Sep5.key = Sep5.secret
  /\ StrKey.account_id Sep5.public_key = Sep5.account.
Proof. split; vm_compute; reflexivity. Qed.

Lemma sep5_mnemonic_ascii :
  Reference.is_ascii (ustr_of_string Sep5.mnemonic) = true
  /\ utf8 (ustr_of_string Sep5.mnemonic) = Some (bytes_of_string Sep5.mnemonic).
Proof. split; vm_compute; reflexivity. Qed.

(** [to_seed] on the vector, for any normalisation that fixes ASCII. *)
Lemma sep5_to_seed (pkg : MnemonicPackage) (w : world) :
  (forall s, Reference.is_ascii s = true -> normalize_string s = s) ->
  value (to_seed (ustr_of_string Sep5.mnemonic) [] 0 w) = Ok Sep5.key.
Proof.
  intros Hnfkd. rewrite to_seed_run. unfold Reference.stretch.
  rewrite (Hnfkd (ustr_of_string Sep5.mnemonic)) by apply sep5_mnemonic_ascii.
  rewrite (Hnfkd []) by reflexivity.
  rewrite (proj2 sep5_mnemonic_ascii). cbn [utf8].
  rewrite sep5_stretched, <- sep5_derived.
  apply derive_value. lia.
Qed.

(** C6, as amended.  On the mnemonic of the first SEP-0005 vector, with the
    empty passphrase and index 0, [to_seed] returns byte for byte the key
    published for this vector, the one printed as the secret seed
    [SBGWSG6B...DJDVMN]; the ed25519 expansion of this key is the account
    [GDRXE2BQ...SOOHSUJUJ6]. *)
Theorem to_seed_sep5_vector (pkg : MnemonicPackage) (w : world) :
  (forall s, Reference.is_ascii s = true -> normalize_string s = s) ->
  value (to_seed (ustr_of_string Sep5.mnemonic) [] 0 w) = Ok Sep5.key
  /\ StrKey.secret_seed Sep5.key = Sep5.secret
  /\ StrKey.account_id (Ed25519.public_key Sep5.key) = Sep5.account.
Proof.
  intros Hnfkd. split; [now apply sep5_to_seed|].
  rewrite sep5_public_key. exact sep5_strkeys.
Qed.

Lemma to_seed_sep5_vector_witness :
  (forall s, Reference.is_ascii s = true -> @normalize_string plain_package s = s)
  /\ value (@to_seed plain_package (ustr_of_string Sep5.mnemonic) [] 0 blank_world)
     = Ok Sep5.key
  /\ StrKey.secret_seed Sep5.key = Sep5.secret
  /\ StrKey.account_id (Ed25519.public_key Sep5.key) = Sep5.account.
Proof.
  split; [intros s _; reflexivity|].
  apply (to_seed_sep5_vector plain_package blank_world).
  intros s _. reflexivity.
Defined.

(** C6, as stated, fails: the key that [to_seed] returns on the vector does
    not expand to the account string that the claim gives. *)
Lemma to_seed_sep5_not_claimed_account :
  value (@to_seed plain_package (ustr_of_string Sep5.mnemonic) [] 0 blank_world)
  = Ok Sep5.key
  /\ StrKey.account_id (Ed25519.public_key Sep5.key) <> Sep5.claimed_account.
Proof.
  split.
  - apply sep5_to_seed. intros s _. reflexivity.
  - rewrite sep5_public_key, (proj2 sep5_strkeys).
    apply String.eqb_neq. reflexivity.
Qed.

End TestVector.

(** * Further properties of [sep/mnemonic.py] *)
Section DeriveMore.
Local Open Scope Z_scope.

(** X1.  [derive] on every seed, of any length, and every integer index: it
    returns a key, of 32 bytes and after four HMAC computations, exactly when
    [-2^31 <= index < 2^31]; on every other index of at most 4300 digits
    it raises [struct.error] after three, and on an index of more digits
    the built-in [ValueError] of the [%d] conversion after one. *)
Theorem derive_succeeds_iff_in_window (seed : bytes) (index : Z) (w : world) :
  ((exists key, derive seed index w = (Ok key, hmacs 4 w) /\ length key = 32%nat)
   <-> - 2 ^ 31 <= index < 2 ^ 31)
  /\ (derive seed index w = (Raise StructError, hmacs 3 w)
      <-> ~ (- 2 ^ 31 <= index < 2 ^ 31) /\ Z.abs index < str_digits_bound)
  /\ (derive seed index w = (Raise IntStrLimitError, hmacs 1 w)
      <-> str_digits_bound <= Z.abs index).
Proof.
  pose proof str_digits_bound_large as Hb.
  rewrite derive_run.
  destruct (Z.leb_spec (- 2 ^ 31) index) as [Hlo|Hlo],
           (Z.ltb_spec index (2 ^ 31)) as [Hhi|Hhi]; cbn [andb].
  1:{ split; [|split].
      - split; [lia|]. intros _.
        exists (Reference.slip10 seed index).
        split; [reflexivity | apply slip10_length].
      - split; [intros H; discriminate H | lia].
      - split; [intros H; discriminate H | lia]. }
  all: destruct (exceeds_str_digits index) eqn:Hx;
    [apply exceeds_str_digits_true in Hx | apply exceeds_str_digits_false in Hx].
  all: split; [|split].
  all: try (split; [intros (key & H & _); discriminate H | lia]).
  all: try (split; [intros H; discriminate H | lia]).
  all: split; [intros _ | intros _; reflexivity]; try split; try assumption; lia.
Qed.

(** X2.  For every index that the interpreter prints (at most 4300 digits),
    negative ones included, the formatted path has three segments after the
    leading [m], and reading each of them back with [int(x[:-1])] gives 44,
    148 and the index itself. *)
Theorem path_segments_parse (index : Z) :
  Z.abs index < str_digits_bound ->
  exists path,
    checked_percent_d STELLAR_ACCOUNT_PATH_FORMAT index = Ok path
    /\ length (tl (split "/" path)) = 3%nat
    /\ map (fun x => py_int (drop_last x)) (tl (split "/" path))
       = [Ok 44; Ok 148; Ok index].
Proof.
  intros Hb. exists (percent_d STELLAR_ACCOUNT_PATH_FORMAT index).
  split; [now apply checked_percent_d_within|].
  rewrite path_segments. split; [reflexivity|].
  cbn [map]. rewrite drop_last_app, py_int_format_d. reflexivity.
Qed.

Lemma path_segments_parse_witness :
  Z.abs (- 5) < str_digits_bound
  /\ exists path,
       checked_percent_d STELLAR_ACCOUNT_PATH_FORMAT (- 5) = Ok path
       /\ map (fun x => py_int (drop_last x)) (tl (split "/" path))
          = [Ok 44; Ok 148; Ok (- 5)].
Proof.
  assert (H : Z.abs (- 5) < str_digits_bound)
    by (pose proof str_digits_bound_large; lia).
  split; [exact H|].
  destruct (path_segments_parse (- 5) H) as (path & Hp & _ & Hs).
  exists path. split; assumption.
Defined.

Lemma byte_of_N_value (n : N) : Byte.to_N (byte_of_N n) = N.land n 255.
Proof.
  unfold byte_of_N.
  destruct (Byte.of_N (N.land n 255)) as [b|] eqn:E.
  - now apply Byte.to_of_N.
  - apply Byte.of_N_None_iff in E.
    assert (N.land n 255 <= 255)%N; [|lia].
    change 255%N with (N.ones 8). rewrite N.land_ones.
    assert (n mod 2 ^ 8 < 2 ^ 8)%N by (apply N.mod_lt; discriminate).
    change (N.ones 8) with 255%N. change (2 ^ 8)%N with 256%N in *. lia.
Qed.

Lemma be_bytes_4 (v : N) :
  be_bytes 4 v
  = [byte_of_N (N.shiftr v 24); byte_of_N (N.shiftr v 16);
     byte_of_N (N.shiftr v 8); byte_of_N (N.shiftr v 0)].
Proof. reflexivity. Qed.

Lemma be_word_be_bytes_4 (v : N) : (v < 2 ^ 32)%N -> be_word (be_bytes 4 v) = v.
Proof.
  intros Hv. rewrite be_bytes_4. unfold be_word. cbn [fold_left].
  rewrite !byte_of_N_value.
  change 255%N with (N.ones 8). rewrite !N.land_ones, !N.shiftr_div_pow2.
  change (2 ^ 0)%N with 1%N. change (2 ^ 8)%N with 256%N.
  change (2 ^ 16)%N with 65536%N. change (2 ^ 24)%N with 16777216%N.
  change (2 ^ 32)%N with 4294967296%N in Hv.
  rewrite N.div_1_r.
  zify. Z.to_euclidean_division_equations. lia.
Qed.

(** X3.  The child number that [derive] packs for a segment [n] in the window:
    four bytes that read back, big-endian, as [2^31 + n], so that distinct
    segments are packed differently; the top bit of the first byte, the
    hardened flag, is set exactly when [n] is not negative; and the message
    of the HMAC step, the pad byte, 32 bytes of key material and the child
    number, has 37 bytes. *)
Theorem hardened_child_number (n : Z) (il : bytes) :
  - 2 ^ 31 <= n < 2 ^ 31 ->
  exists b0 b1 b2 b3,
    struct_pack_I (FIRST_HARDENED_INDEX + n) = Ok [b0; b1; b2; b3]
    /\ Z.of_N (be_word [b0; b1; b2; b3]) = 2 ^ 31 + n
    /\ ((128 <= Byte.to_N b0)%N <-> 0 <= n)
    /\ (length il = 32%nat ->
        length (struct_pack_x ++ il ++ [b0; b1; b2; b3]) = 37%nat).
Proof.
  intros [Hlo Hhi].
  change FIRST_HARDENED_INDEX with (2 ^ 31).
  unfold struct_pack_I.
  replace ((0 <=? 2 ^ 31 + n) && (2 ^ 31 + n <=? 0xFFFFFFFF)) with true
    by (symmetry; apply andb_true_iff; split; apply Z.leb_le; lia).
  rewrite be_bytes_4.
  do 4 eexists. split; [reflexivity|].
  assert (Hv : (Z.to_N (2 ^ 31 + n) < 2 ^ 32)%N).
  { change (2 ^ 32)%N with (Z.to_N (2 ^ 32)). apply Z2N.inj_lt; lia. }
  split; [|split].
  - rewrite <- be_bytes_4, be_word_be_bytes_4 by exact Hv.
    rewrite Z2N.id; lia.
  - rewrite byte_of_N_value.
    change 255%N with (N.ones 8). rewrite N.land_ones, N.shiftr_div_pow2.
    change (2 ^ 8)%N with 256%N. change (2 ^ 24)%N with 16777216%N.
    change (2 ^ 32)%N with 4294967296%N in Hv.
    assert (E : Z.of_N (Z.to_N (2 ^ 31 + n)) = 2 ^ 31 + n) by (apply Z2N.id; lia).
    revert E Hv. generalize (Z.to_N (2 ^ 31 + n)). intros v E Hv.
    change (2 ^ 31) with 2147483648 in *.
    zify. Z.to_euclidean_division_equations. lia.
  - intros Hil. rewrite !length_app, Hil. reflexivity.
Qed.

Lemma hardened_child_number_witness :
  - 2 ^ 31 <= 148 < 2 ^ 31
  /\ exists b0 b1 b2 b3,
       struct_pack_I (FIRST_HARDENED_INDEX + 148) = Ok [b0; b1; b2; b3]
       /\ Z.of_N (be_word [b0; b1; b2; b3]) = 2 ^ 31 + 148.
Proof.
  split; [lia|].
  destruct (hardened_child_number 148 []) as (b0 & b1 & b2 & b3 & H & R & _);
    [lia|].
  exists b0, b1, b2, b3. split; assumption.
Defined.

End DeriveMore.

Section ToSeedMore.
Local Open Scope Z_scope.
Context {pkg : MnemonicPackage}.

(** X4.  A mnemonic or a passphrase whose normal form has no UTF-8 encoding (a
    lone surrogate) makes [to_seed] raise [UnicodeEncodeError] at once:
    nothing has been hashed. *)
Theorem to_seed_unencodable (mnemonic passphrase : ustr) (index : Z) (w : world) :
  utf8 (normalize_string mnemonic) = None
  \/ utf8 (normalize_string passphrase) = None ->
  to_seed mnemonic passphrase index w = (Raise UnicodeEncodeError, w).
Proof.
  intros H. rewrite to_seed_run. unfold Reference.stretch.
  destruct H as [-> | ->]; [reflexivity|].
  destruct (utf8 (normalize_string mnemonic)); reflexivity.
Qed.

(** X5.  The index is the last thing [to_seed] looks at: on encodable strings and
    an index outside [-2^31, 2^31) the error comes after the whole PBKDF2
    stretching: the [struct.error] after three more HMAC computations for
    an index of at most 4300 digits, the built-in [ValueError] of the [%d]
    conversion after one for an index of more digits. *)
Theorem to_seed_bad_index (mnemonic passphrase : ustr) (index : Z) (w : world) :
  utf8 (normalize_string mnemonic) <> None ->
  utf8 (normalize_string passphrase) <> None ->
  ~ (- 2 ^ 31 <= index < 2 ^ 31) ->
  (Z.abs index < str_digits_bound ->
   to_seed mnemonic passphrase index w
   = (Raise StructError, hmacs 3 (record (Pbkdf2HmacSha512 2048) w)))
  /\ (str_digits_bound <= Z.abs index ->
      to_seed mnemonic passphrase index w
      = (Raise IntStrLimitError, hmacs 1 (record (Pbkdf2HmacSha512 2048) w))).
Proof.
  intros Hm Hp Hi. rewrite to_seed_run. unfold Reference.stretch.
  destruct (utf8 (normalize_string mnemonic)); [|contradiction].
  destruct (utf8 (normalize_string passphrase)); [|contradiction].
  rewrite derive_run.
  replace ((- 2 ^ 31 <=? index) && (index <? 2 ^ 31)) with false.
  2:{ symmetry. apply andb_false_iff.
      destruct (Z.leb_spec (- 2 ^ 31) index); [right | now left].
      apply Z.ltb_ge. lia. }
  destruct (exceeds_str_digits index) eqn:Hx;
    [apply exceeds_str_digits_true in Hx | apply exceeds_str_digits_false in Hx].
  - split; [lia | reflexivity].
  - split; [reflexivity | lia].
Qed.

(** X6.  [to_seed] sees its two strings through their normal forms only: strings
    with the same normal forms give the same result, in the same world. *)
Theorem to_seed_normal_forms (m1 m2 p1 p2 : ustr) (index : Z) (w : world) :
  normalize_string m1 = normalize_string m2 ->
  normalize_string p1 = normalize_string p2 ->
  to_seed m1 p1 index w = to_seed m2 p2 index w.
Proof.
  intros Hm Hp. rewrite !to_seed_run. unfold Reference.stretch.
  now rewrite Hm, Hp.
Qed.

(** X7.  The enumeration passes its [@unique] check: its eight members have
    eight different values. *)
Theorem Language_values_unique :
  NoDup (map Language_value Language_members)
  /\ (forall l, In l Language_members)
  /\ forall l1 l2, Language_value l1 = Language_value l2 -> l1 = l2.
Proof.
  split; [|split].
  - cbn. repeat constructor; cbn; intuition discriminate.
  - intros l. destruct l; cbn; tauto.
  - intros l1 l2 H. destruct l1, l2; (reflexivity || discriminate H).
Qed.

(** X8.  A member of [Language] and its value are the same argument to the
    constructor: in both cases the constructor of the base class is called
    once, with the value, and the instance has this language if the base
    class accepts it. *)
Theorem init_member_or_value (l : Language) (w : world) :
  init (ArgLanguage l) w = init (ArgStr (Language_value l)) w
  /\ calls (after (init (ArgLanguage l) w))
     = calls w ++ [MnemonicInit (Language_value l)]
  /\ (Mnemonic_init (Language_value l) = Returns tt ->
      value (init (ArgLanguage l) w) = Ok {| language := Language_value l |}).
Proof.
  split; [|split].
  - destruct l; reflexivity.
  - reflexivity.
  - intros H. unfold init, bind, ret, super_init, value. cbn [fst].
    now rewrite H.
Qed.

End ToSeedMore.

Lemma to_seed_unencodable_witness :
  utf8 (@normalize_string plain_package [0xD800%N]) = None
  /\ @to_seed plain_package [0xD800%N] [] 0%Z blank_world
     = (Raise UnicodeEncodeError, blank_world).
Proof.
  split; [reflexivity|].
  apply (@to_seed_unencodable plain_package). left. reflexivity.
Defined.

Lemma to_seed_bad_index_witness :
  ~ (- 2 ^ 31 <= 2 ^ 31 < 2 ^ 31)%Z
  /\ (Z.abs (2 ^ 31) < str_digits_bound)%Z
  /\ @to_seed plain_package [] [] (2 ^ 31)%Z blank_world
     = (Raise StructError, hmacs 3 (record (Pbkdf2HmacSha512 2048) blank_world)).
Proof.
  assert (H : ~ (- 2 ^ 31 <= 2 ^ 31 < 2 ^ 31)%Z) by lia.
  assert (Hb : (Z.abs (2 ^ 31) < str_digits_bound)%Z)
    by (pose proof str_digits_bound_large; lia).
  split; [exact H|]. split; [exact Hb|].
  apply (@to_seed_bad_index plain_package [] [] (2 ^ 31)%Z blank_world);
    [discriminate | discriminate | exact H | exact Hb].
Defined.

Lemma to_seed_normal_forms_witness :
  @normalize_string angstrom_package [0x212B%N]
  = @normalize_string angstrom_package [0x41%N; 0x30A%N]
  /\ @to_seed angstrom_package [0x212B%N] [] 0%Z blank_world
     = @to_seed angstrom_package [0x41%N; 0x30A%N] [] 0%Z blank_world.
Proof.
  split; [reflexivity|].
  apply (@to_seed_normal_forms angstrom_package); reflexivity.
Defined.

Lemma init_member_or_value_witness :
  @Mnemonic_init plain_package (Language_value KOREAN) = Returns tt
  /\ value (@init plain_package (ArgLanguage KOREAN) blank_world)
     = Ok {| language := "korean" |}.
Proof.
  split; [reflexivity|].
  apply (@init_member_or_value plain_package KOREAN blank_world). reflexivity.
Defined.

(** * Further properties of [client/requests_client.py] *)
Section StreamMore.
Import RequestsClient.
Variable json : Type.
Variable json_loads : string -> option json.

(** One turn of the generator. *)
Lemma stream_step (pending : list message) :
  stream json json_loads pending
  = match SSEClient_next json json_loads pending with
    | (Ok v, rest) =>
        let '(vs, e) := stream json json_loads rest in (v :: vs, e)
    | (Raise e, _) => ([], e)
    end.
Proof.
  funelim (stream json json_loads pending);
    match goal with
    | E : SSEClient_next _ _ _ = _ |- _ => rewrite E
    end; reflexivity.
Qed.

Lemma stream_nil : stream json json_loads [] = ([], StopIteration).
Proof. rewrite (stream_step []). reflexivity. Qed.

Lemma stream_keepalive (msg : message) (rest : list message) :
  is_keepalive msg = true ->
  stream json json_loads (msg :: rest) = stream json json_loads rest.
Proof.
  intros Hk. rewrite (stream_step (msg :: rest)), (stream_step rest).
  now rewrite (SSEClient_next_keepalive json json_loads msg rest Hk).
Qed.

Lemma stream_payload (msg : message) (rest : list message) :
  is_keepalive msg = false ->
  stream json json_loads (msg :: rest)
  = match json_loads (data msg) with
    | Some v => (v :: fst (stream json json_loads rest),
                 snd (stream json json_loads rest))
    | None => ([], JSONDecodeError)
    end.
Proof.
  intros Hk. rewrite (stream_step (msg :: rest)).
  rewrite (SSEClient_next_payload json json_loads msg rest Hk).
  unfold loads. destruct (json_loads (data msg)); [|reflexivity].
  destruct (stream json json_loads rest). reflexivity.
Qed.

Lemma stream_app_done (first second : list message) :
  snd (stream json json_loads first) = StopIteration ->
  stream json json_loads (first ++ second)
  = (fst (stream json json_loads first) ++ fst (stream json json_loads second),
     snd (stream json json_loads second)).
Proof.
  induction first as [|msg rest IH]; cbn [app].
  - rewrite stream_nil. intros _. cbn [fst app].
    now destruct (stream json json_loads second).
  - destruct (is_keepalive msg) eqn:Hk.
    + rewrite !stream_keepalive by exact Hk. exact IH.
    + rewrite !stream_payload by exact Hk.
      destruct (json_loads (data msg)) as [v|]; cbn [fst snd].
      * intros H. now rewrite (IH H).
      * discriminate.
Qed.

Lemma stream_app_failed (first second : list message) :
  snd (stream json json_loads first) <> StopIteration ->
  stream json json_loads (first ++ second) = stream json json_loads first.
Proof.
  induction first as [|msg rest IH]; cbn [app].
  - rewrite stream_nil. intros H. now destruct H.
  - destruct (is_keepalive msg) eqn:Hk.
    + rewrite !stream_keepalive by exact Hk. exact IH.
    + rewrite !stream_payload by exact Hk.
      destruct (json_loads (data msg)) as [v|]; cbn [fst snd].
      * intros H. now rewrite (IH H).
      * reflexivity.
Qed.

Lemma stream_decodable (pending : list message) :
  Forall (fun m => is_keepalive m = true \/ json_loads (data m) <> None) pending ->
  map Some (fst (stream json json_loads pending))
  = map (fun m => json_loads (data m))
        (filter (fun m => negb (is_keepalive m)) pending)
  /\ snd (stream json json_loads pending) = StopIteration.
Proof.
  intros H. induction H as [|msg rest Hm _ [IH1 IH2]].
  - rewrite stream_nil. split; reflexivity.
  - cbn [filter]. destruct (is_keepalive msg) eqn:Hk; cbn [negb].
    + rewrite stream_keepalive by exact Hk. split; assumption.
    + rewrite stream_payload by exact Hk.
      destruct Hm as [Hm|Hm]; [discriminate Hm|].
      destruct (json_loads (data msg)) as [v|] eqn:Hv; [|now destruct Hm].
      cbn [fst snd map]. rewrite Hv, IH1. split; [reflexivity | exact IH2].
Qed.

(** X10.  [__next__] passes over any number of keep-alive messages, returns the
    decoding of the first message that is not one (or the decoding error),
    and leaves pending exactly what follows this message. *)
Theorem SSEClient_next_first_payload (alive : list message) (msg : message)
        (rest : list message) :
  Forall (fun m => is_keepalive m = true) alive ->
  is_keepalive msg = false ->
  SSEClient_next json json_loads (alive ++ msg :: rest)
  = (loads json json_loads (data msg), rest).
Proof.
  intros Halive Hmsg.
  induction Halive as [|m alive Hm _ IH]; cbn [app].
  - now apply SSEClient_next_payload.
  - now rewrite (SSEClient_next_keepalive json json_loads m (alive ++ msg :: rest) Hm).
Qed.

(** X11.  When only keep-alive messages are left, [__next__] consumes them all
    and the iteration of the wrapped client ends; the stream then yields
    nothing. *)
Theorem SSEClient_next_only_keepalives (pending : list message) :
  Forall (fun m => is_keepalive m = true) pending ->
  SSEClient_next json json_loads pending = (Raise StopIteration, [])
  /\ stream json json_loads pending = ([], StopIteration).
Proof.
  intros H. induction H as [|m pending Hm _ [IH1 IH2]].
  - split; [reflexivity | apply stream_nil].
  - rewrite (SSEClient_next_keepalive json json_loads m pending Hm).
    rewrite stream_keepalive by exact Hm.
    split; assumption.
Qed.

(** X12.  Streams compose: if the messages [first] are consumed to the end, what
    the stream yields on [first ++ second] is what it yields on [first]
    followed by what it yields on [second]; if a message of [first] does not
    decode, nothing of [second] is ever read. *)
Theorem stream_app (first second : list message) :
  (snd (stream json json_loads first) = StopIteration ->
   stream json json_loads (first ++ second)
   = (fst (stream json json_loads first) ++ fst (stream json json_loads second),
      snd (stream json json_loads second)))
  /\ (snd (stream json json_loads first) <> StopIteration ->
      stream json json_loads (first ++ second) = stream json json_loads first).
Proof.
  split; [apply stream_app_done | apply stream_app_failed].
Qed.

(** X13.  If every message that is not a keep-alive decodes, the stream yields one
    value for each of them, in order, and ends because the messages are
    exhausted. *)
Theorem stream_all_decoded (pending : list message) :
  Forall (fun m => is_keepalive m = true \/ json_loads (data m) <> None) pending ->
  map Some (fst (stream json json_loads pending))
  = map (fun m => json_loads (data m))
        (filter (fun m => negb (is_keepalive m)) pending)
  /\ length (fst (stream json json_loads pending))
     = length (filter (fun m => negb (is_keepalive m)) pending)
  /\ snd (stream json json_loads pending) = StopIteration.
Proof.
  intros H. destruct (stream_decodable pending H) as [Hv He].
  split; [exact Hv|]. split; [|exact He].
  apply (f_equal (@length _)) in Hv. now rewrite !length_map in Hv.
Qed.

(** X14.  A message that does not decode ends the stream with the decoding
    error: the values of the messages before it have been yielded, the
    messages after it never are. *)
Theorem stream_stops_at_undecodable (before : list message) (bad : message)
        (rest : list message) :
  Forall (fun m => is_keepalive m = true \/ json_loads (data m) <> None) before ->
  is_keepalive bad = false ->
  json_loads (data bad) = None ->
  stream json json_loads (before ++ bad :: rest)
  = (fst (stream json json_loads before), JSONDecodeError).
Proof.
  intros Hb Hk Hbad.
  destruct (stream_decodable before Hb) as [_ Hend].
  rewrite (stream_app_done before (bad :: rest) Hend).
  rewrite stream_payload by exact Hk. rewrite Hbad.
  cbn [fst snd]. now rewrite app_nil_r.
Qed.

End StreamMore.

Lemma SSEClient_next_first_payload_witness :
  Forall (fun m => RequestsClient.is_keepalive m = true)
         [StreamSamples.hello; StreamSamples.byebye]
  /\ RequestsClient.is_keepalive StreamSamples.ledger = false
  /\ RequestsClient.SSEClient_next nat StreamSamples.text_length
       ([StreamSamples.hello; StreamSamples.byebye]
          ++ StreamSamples.ledger :: [StreamSamples.hello])
     = (Ok 2%nat, [StreamSamples.hello]).
Proof.
  assert (H : Forall (fun m => RequestsClient.is_keepalive m = true)
                     [StreamSamples.hello; StreamSamples.byebye])
    by (repeat constructor).
  split; [exact H|]. split; [reflexivity|].
  exact (SSEClient_next_first_payload nat StreamSamples.text_length _
           StreamSamples.ledger [StreamSamples.hello] H eq_refl).
Defined.

Lemma SSEClient_next_only_keepalives_witness :
  Forall (fun m => RequestsClient.is_keepalive m = true)
         [StreamSamples.byebye; StreamSamples.hello]
  /\ RequestsClient.stream nat StreamSamples.text_length
       [StreamSamples.byebye; StreamSamples.hello]
     = ([], StopIteration).
Proof.
  assert (H : Forall (fun m => RequestsClient.is_keepalive m = true)
                     [StreamSamples.byebye; StreamSamples.hello])
    by (repeat constructor).
  split; [exact H|].
  exact (proj2 (SSEClient_next_only_keepalives nat StreamSamples.text_length _ H)).
Defined.

Lemma stream_app_witness :
  snd (RequestsClient.stream nat StreamSamples.text_length [StreamSamples.broken])
  <> StopIteration
  /\ RequestsClient.stream nat StreamSamples.text_length
       ([StreamSamples.broken] ++ [StreamSamples.ledger])
     = RequestsClient.stream nat StreamSamples.text_length [StreamSamples.broken].
Proof.
  assert (H : snd (RequestsClient.stream nat StreamSamples.text_length
                     [StreamSamples.broken]) <> StopIteration).
  { rewrite (stream_payload nat StreamSamples.text_length StreamSamples.broken []
               eq_refl).
    discriminate. }
  split; [exact H|].
  exact (proj2 (stream_app nat StreamSamples.text_length
                  [StreamSamples.broken] [StreamSamples.ledger]) H).
Defined.

Lemma stream_all_decoded_witness :
  Forall (fun m => RequestsClient.is_keepalive m = true
                   \/ StreamSamples.text_length (RequestsClient.data m) <> None)
         [StreamSamples.hello; StreamSamples.ledger]
  /\ length (fst (RequestsClient.stream nat StreamSamples.text_length
                    [StreamSamples.hello; StreamSamples.ledger])) = 1%nat.
Proof.
  assert (H : Forall (fun m => RequestsClient.is_keepalive m = true
                   \/ StreamSamples.text_length (RequestsClient.data m) <> None)
         [StreamSamples.hello; StreamSamples.ledger]).
  { constructor; [left; reflexivity|].
    constructor; [right; discriminate | constructor]. }
  split; [exact H|].
  exact (proj1 (proj2 (stream_all_decoded nat StreamSamples.text_length _ H))).
Defined.

Lemma stream_stops_at_undecodable_witness :
  Forall (fun m => RequestsClient.is_keepalive m = true
                   \/ StreamSamples.text_length (RequestsClient.data m) <> None)
         [StreamSamples.ledger]
  /\ RequestsClient.stream nat StreamSamples.text_length
       ([StreamSamples.ledger] ++ StreamSamples.broken :: [StreamSamples.ledger])
     = (fst (RequestsClient.stream nat StreamSamples.text_length
               [StreamSamples.ledger]), JSONDecodeError).
Proof.
  assert (H : Forall (fun m => RequestsClient.is_keepalive m = true
                   \/ StreamSamples.text_length (RequestsClient.data m) <> None)
         [StreamSamples.ledger]).
  { constructor; [right; discriminate | constructor]. }
  split; [exact H|].
  exact (stream_stops_at_undecodable nat StreamSamples.text_length _
           StreamSamples.broken [StreamSamples.ledger] H eq_refl eq_refl).
Defined.

Section HttpMore.
Import RequestsClient.
Local Open Scope string_scope.
Variable version : string.

Lemma dict_get_set_same (k v : string) (d : dict) :
  dict_get k (dict_set k v d) = Some v.
Proof.
  induction d as [|[k' v'] r IH]; cbn [dict_set dict_get].
  - now rewrite String.eqb_refl.
  - destruct (String.eqb k' k) eqn:E; cbn [dict_get]; rewrite E; auto.
Qed.

Lemma dict_get_set_other (k k0 v : string) (d : dict) :
  k0 <> k -> dict_get k0 (dict_set k v d) = dict_get k0 d.
Proof.
  intros Hne.
  induction d as [|[k' v'] r IH]; cbn [dict_set dict_get].
  - destruct (String.eqb_spec k k0); [congruence | reflexivity].
  - destruct (String.eqb_spec k' k) as [->|Hk]; cbn [dict_get].
    + destruct (String.eqb_spec k k0); [congruence | reflexivity].
    + now rewrite IH.
Qed.

Lemma keys_dict_set (k v : string) (d : dict) :
  keys (dict_set k v d)
  = if existsb (String.eqb k) (keys d) then keys d else (keys d ++ [k])%list.
Proof.
  induction d as [|[k' v'] r IH]; cbn [dict_set keys map existsb fst]; [reflexivity|].
  rewrite (String.eqb_sym k k').
  destruct (String.eqb k' k); cbn [orb map fst]; [reflexivity|].
  fold (keys r). fold (keys (dict_set k v r)). rewrite IH.
  destruct (existsb (String.eqb k) (keys r)); reflexivity.
Qed.

Lemma stream_query_params_unfold (params : option dict) :
  stream_query_params version params
  = dict_set "X-Client-Version" version
      (dict_set "X-Client-Name" "py-stellar-sdk"
         match params with Some p => p | None => [] end).
Proof.
  destruct params as [[|kv p]|];
    unfold stream_query_params, dict_unpack, IDENTIFICATION_HEADERS;
    cbn [fold_left fst snd]; reflexivity.
Qed.

(** X15.  The query that [stream] sends: the two identification parameters are
    always there with the SDK's values, a parameter of the caller with one
    of these names is overridden, and every other parameter of the caller
    is passed as given; without parameters ([None] or an empty dictionary)
    the query is the identification alone. *)
Theorem stream_query_params_lookup (params : option dict) (k : string) :
  dict_get k (stream_query_params version params)
  = if String.eqb k "X-Client-Name" then Some "py-stellar-sdk"
    else if String.eqb k "X-Client-Version" then Some version
    else match params with Some p => dict_get k p | None => None end.
Proof.
  rewrite stream_query_params_unfold.
  destruct (String.eqb_spec k "X-Client-Version") as [->|Hv].
  - rewrite dict_get_set_same. reflexivity.
  - rewrite dict_get_set_other by exact Hv.
    destruct (String.eqb_spec k "X-Client-Name") as [->|Hn].
    + apply dict_get_set_same.
    + rewrite dict_get_set_other by exact Hn. now destruct params.
Qed.

(** X16.  The parameters of the caller keep their order and come first in the
    query; whatever follows them is an identification parameter; and the
    query has no key twice if the parameters had none. *)
Theorem stream_query_params_keys (p : dict) :
  exists extra,
    keys (stream_query_params version (Some p)) = (keys p ++ extra)%list
    /\ incl extra ["X-Client-Name"; "X-Client-Version"]
    /\ (NoDup (keys p) -> NoDup (keys (stream_query_params version (Some p)))).
Proof.
  rewrite stream_query_params_unfold, !keys_dict_set.
  destruct (existsb (String.eqb "X-Client-Name") (keys p)) eqn:En.
  - destruct (existsb (String.eqb "X-Client-Version") (keys p)) eqn:Ev.
    + exists []. rewrite app_nil_r. repeat split; auto. intros k [].
    + exists ["X-Client-Version"]. split; [reflexivity|]. split.
      * intros k [<-|[]]. cbn. tauto.
      * intros Hnd. apply NoDup_app.
        -- exact Hnd.
        -- repeat constructor. intros [].
        -- intros k Hin [<-|[]].
           assert (existsb (String.eqb "X-Client-Version") (keys p) = true).
           { apply existsb_exists. exists "X-Client-Version".
             split; [exact Hin | apply String.eqb_refl]. }
           congruence.
  - rewrite existsb_app.
    change (existsb (String.eqb "X-Client-Version") ["X-Client-Name"]) with false.
    rewrite orb_false_r.
    assert (Hn : ~ In "X-Client-Name" (keys p)).
    { intros Hin.
      assert (existsb (String.eqb "X-Client-Name") (keys p) = true).
      { apply existsb_exists. exists "X-Client-Name".
        split; [exact Hin | apply String.eqb_refl]. }
      congruence. }
    destruct (existsb (String.eqb "X-Client-Version") (keys p)) eqn:Ev.
    + exists ["X-Client-Name"]. split; [reflexivity|]. split.
      * intros k [<-|[]]. cbn. tauto.
      * intros Hnd. apply NoDup_app.
        -- exact Hnd.
        -- repeat constructor. intros [].
        -- intros k Hin [<-|[]]. exact (Hn Hin).
    + exists ["X-Client-Name"; "X-Client-Version"].
      split; [now rewrite <- app_assoc|]. split.
      * apply incl_refl.
      * intros Hnd. rewrite <- app_assoc. apply NoDup_app.
        -- exact Hnd.
        -- repeat constructor; cbn; intuition discriminate.
        -- intros k Hin [<-|[<-|[]]]; [exact (Hn Hin)|].
           assert (existsb (String.eqb "X-Client-Version") (keys p) = true).
           { apply existsb_exists. exists "X-Client-Version".
             split; [exact Hin | apply String.eqb_refl]. }
           congruence.
Qed.

End HttpMore.
